(** * Scenario simulation engine of the vendor dashboard

    Shallow embedding of [runLocalSimulation] from
    [frontend/src/pages/Vendors.tsx] (component [SimulationPanel]) together
    with the JavaScript built-ins it calls, and the properties the
    specification states about it.  The handlers and card texts of the
    panel, the vendor ratings of the vendors page, the sorting of the
    products page and the colour bands of the revenue intelligence module
    follow, each with the properties its code shows.

    Number model.  A JavaScript [number] is modelled as an exact rational
    ([Q]); sums, products and quotients are exact, so the rounding of
    intermediate results to binary64, the infinities and NaN are not part of
    the model.  Equality of numbers is [Qeq] ([==]), the strict inequality
    [!==] is the negation of [Qeq_bool].  Integer-valued results of
    [Math.round] are typed [Z] and injected where a number is expected.

    Where overflow and rounding decide a property, the code is modelled a
    second time on IEEE 754 binary64 numbers (module [Binary64]): the
    numeric fields of [runLocalSimulation], for the bounds of the risk
    index and the health score and for the rounding of the outputs, and
    the rating of a vendor, for its dependence on the order of the rows. *)

From Stdlib Require Import ZArith QArith Qround Qabs.
From Stdlib Require Import String Ascii List Bool.
From Stdlib Require Import Lia Lqa.
From Stdlib Require Import Permutation Sorted.
From Stdlib Require Import SpecFloat Qpower.
Import ListNotations.

Open Scope Q_scope.

Definition number := Q.

(** ** JavaScript built-ins used by the component *)

(** [Math.round], [Math.max], [Math.min], [Math.abs]. *)
Module Math.

(** Nearest integer, a tie going towards plus infinity, that is
    [floor(x + 0.5)]: [Math.round(2.5) = 3], [Math.round(-2.5) = -2]. *)
Definition round (x : number) : Z := Qfloor (x + 0.5).

Definition max (a b : number) : number := if Qle_bool a b then b else a.

Definition min (a b : number) : number := if Qle_bool a b then a else b.

Definition abs (z : Z) : Z := Z.abs z.

End Math.

(** Decimal numerals. *)
Module Numeral.

Definition digit_char (d : Z) : ascii := ascii_of_nat (48 + Z.to_nat d).

Definition digit_value (c : ascii) : option Z :=
  let n := Z.of_nat (nat_of_ascii c) in
  if ((48 <=? n) && (n <=? 57))%Z then Some (n - 48)%Z else None.

(** Digits of [n >= 0], most significant first, in front of [acc];
    [fuel] bounds the number of digits produced. *)
Fixpoint digits_acc (fuel : nat) (n : Z) (acc : string) : string :=
  match fuel with
  | O => acc
  | S fuel' =>
      let acc' := String (digit_char (n mod 10)) acc in
      if (n / 10 =? 0)%Z then acc' else digits_acc fuel' (n / 10) acc'
  end.

(** The decimal representation of [n >= 0]; ["0"] for zero.  A number
    has no more decimal digits than binary ones. *)
Definition digits (n : Z) : string :=
  digits_acc (S (Z.to_nat (Z.log2 n))) n EmptyString.

(** Reads the longest prefix of decimal digits of [s]: the value read on
    top of [acc], the number of digits read on top of [count], and the
    rest of the string. *)
Fixpoint parse_digits (s : string) (acc : Z) (count : nat)
  : Z * nat * string :=
  match s with
  | String c rest =>
      match digit_value c with
      | Some d => parse_digits rest (acc * 10 + d) (S count)
      | None => (acc, count, s)
      end
  | EmptyString => (acc, count, s)
  end.

(** The strings made of decimal digits only, and the number such a string
    denotes on top of [acc]. *)
Fixpoint all_digits (s : string) : bool :=
  match s with
  | String c rest =>
      match digit_value c with
      | Some _ => all_digits rest
      | None => false
      end
  | EmptyString => true
  end.

Fixpoint digits_value (s : string) (acc : Z) : Z :=
  match s with
  | String c rest =>
      match digit_value c with
      | Some d => digits_value rest (acc * 10 + d)
      | None => acc
      end
  | EmptyString => acc
  end.

Fixpoint zeros (k : nat) : string :=
  match k with
  | O => EmptyString
  | S k' => String "0" (zeros k')
  end.

Fixpoint take (k : nat) (s : string) : string :=
  match k, s with
  | S k', String c rest => String c (take k' rest)
  | _, _ => EmptyString
  end.

Fixpoint drop (k : nat) (s : string) : string :=
  match k, s with
  | S k', String _ rest => drop k' rest
  | _, _ => s
  end.

End Numeral.

(** [ToString] applied to an integer-valued number, as a template literal
    does ([`${pct}`]): the decimal digits, a minus sign in front of a
    negative one.  (JavaScript switches to exponent notation from 1e21 on;
    the model keeps positional digits there.) *)
Definition Number_toString (z : Z) : string :=
  if (z <? 0)%Z then String "-" (Numeral.digits (- z)) else Numeral.digits z.

(** The last steps of [toFixed]: the digits [m] are padded with zeros on
    the left to [f + 1] characters and the point is put in front of the
    last [f]; nothing is done when [f] is 0. *)
Definition insert_point (m : string) (f : nat) : string :=
  match f with
  | O => m
  | S _ =>
      let k := String.length m in
      let m :=
        if (k <=? f)%nat then (Numeral.zeros (f + 1 - k) ++ m)%string
        else m in
      let k := String.length m in
      let a := Numeral.take (k - f) m in
      let b := Numeral.drop (k - f) m in
      (a ++ "." ++ b)%string
  end.

(** [Number.prototype.toFixed(fractionDigits)], following the steps of
    ECMAScript: the sign is split off, [n] is the integer for which
    [n / 10^f - x] is closest to zero (the larger one on a tie), and its
    digits get the point.  (From 1e21 on JavaScript returns [ToString(x)]
    instead; the model keeps positional digits there.) *)
Definition toFixed (x : number) (fractionDigits : nat) : string :=
  let f := fractionDigits in
  let s := if Qlt_le_dec x 0 then "-"%string else ""%string in
  let x := if Qlt_le_dec x 0 then - x else x in
  let n := Qfloor (x * inject_Z (10 ^ Z.of_nat f) + 0.5) in
  let m := Numeral.digits n in
  (s ++ insert_point m f)%string.

(** [parseFloat] on the part of its grammar without exponent: an optional
    sign, digits, an optional point followed by digits; whatever follows
    is ignored.  A string with no digit at all parses to NaN in
    JavaScript; the model has no NaN and returns 0 there, a case the
    strings produced by [toFixed] never reach (lemma
    [parseFloat_toFixed]). *)
Definition parseFloat (s : string) : number :=
  let '(negative, s1) :=
    match s with
    | String c rest =>
        if (c =? "-")%char then (true, rest)
        else if (c =? "+")%char then (false, rest)
        else (false, s)
    | EmptyString => (false, s)
    end in
  let '(int_part, int_count, s2) := Numeral.parse_digits s1 0 0 in
  let '(frac_part, frac_count, _) :=
    match s2 with
    | String c rest =>
        if (c =? ".")%char then Numeral.parse_digits rest 0 0
        else (0%Z, O, s2)
    | EmptyString => (0%Z, O, s2)
    end in
  match int_count, frac_count with
  | O, O => 0
  | _, _ =>
      let magnitude :=
        inject_Z int_part
        + inject_Z frac_part / inject_Z (10 ^ Z.of_nat frac_count) in
      if negative : bool then - magnitude else magnitude
  end.

(** [Array.prototype.join]: the elements in order, the separator in front
    of every element but the first. *)
Fixpoint join_from (sep : string) (first : bool) (R : string)
  (elements : list string) : string :=
  match elements with
  | [] => R
  | e :: rest =>
      let R := if first then R else (R ++ sep)%string in
      join_from sep false (R ++ e)%string rest
  end.

Definition Array_join (elements : list string) (sep : string) : string :=
  join_from sep true EmptyString elements.

(** [Array.prototype.push], as a function of the array. *)
Definition Array_push {A} (xs : list A) (x : A) : list A := xs ++ [x].

(** [Array.prototype.map] with a callback that also takes the index. *)
Fixpoint mapi_from {A B} (f : A -> nat -> B) (i : nat) (xs : list A)
  : list B :=
  match xs with
  | [] => []
  | x :: rest => f x i :: mapi_from f (S i) rest
  end.

Definition Array_mapi {A B} (f : A -> nat -> B) (xs : list A) : list B :=
  mapi_from f 0 xs.

(** [a || b] on strings: the empty string is the only falsy one. *)
Definition string_or (a b : string) : string :=
  match a with
  | EmptyString => b
  | _ => a
  end.

(** [a !== b] on numbers. *)
Definition strict_ne (a b : number) : bool := negb (Qeq_bool a b).

(** ** The component: types, constants and [runLocalSimulation] *)

Record SimulationParams := {
  sales_growth_multiplier : number;
  expense_growth_multiplier : number;
  fraud_sensitivity : number;
  supplier_delay_factor : number;
  reorder_threshold_multiplier : number
}.

Record ForecastPoint := {
  period : string;
  value : number
}.

Record Metadata := {
  base_health_score : number;
  base_expense_total : number;
  fraud_rate_percent : number
}.

Record SimulationResult := {
  new_health_score : number;
  delta_from_base : number;
  projected_cash : number;
  risk_index : number;
  revenue_forecast : list ForecastPoint;
  explanation_summary : string;
  metadata : Metadata
}.

Definition DEFAULT_PARAMS : SimulationParams := {|
  sales_growth_multiplier := 1.0;
  expense_growth_multiplier := 1.0;
  fraud_sensitivity := 1.0;
  supplier_delay_factor := 1.0;
  reorder_threshold_multiplier := 1.0
|}.

(** The memoised constant of the component; [runLocalSimulation] reads its
    [metadata] only. *)
Definition baseResult : SimulationResult := {|
  new_health_score := 75;
  delta_from_base := 0;
  projected_cash := 100000;
  risk_index := 40;
  revenue_forecast := [
    {| period := "P1"; value := 80000 |};
    {| period := "P2"; value := 82500 |};
    {| period := "P3"; value := 85000 |};
    {| period := "P4"; value := 87500 |}
  ];
  explanation_summary :=
    "Baseline scenario using current health, expense and fraud signals to project revenue, cash and risk over the next four periods.";
  metadata := {|
    base_health_score := 75;
    base_expense_total := 50000;
    fraud_rate_percent := 10
  |}
|}.

(** The sentences of the explanation. *)
Definition sales_sentence (pct : Z) : string :=
  if (pct >=? 0)%Z
  then ("Sales growth increased by " ++ Number_toString pct
        ++ "% which lifts projected revenue across the horizon.")%string
  else ("Sales growth reduced by " ++ Number_toString (Math.abs pct)
        ++ "% which compresses projected revenue.")%string.

Definition expense_sentence (pct : Z) : string :=
  if (pct >=? 0)%Z
  then ("Expenses are projected to grow by " ++ Number_toString pct
        ++ "%, creating additional pressure on cash and health.")%string
  else ("Expenses are reduced by " ++ Number_toString (Math.abs pct)
        ++ "%, supporting stronger cash generation.")%string.

Definition fraud_sentence (fraud_sensitivity : number) : string :=
  ("Fraud sensitivity set to " ++ toFixed fraud_sensitivity 2
   ++ " changes how strongly fraud findings influence the unified risk index.")%string.

Definition supply_chain_sentence : string :=
  "Supply-chain levers (supplier delays and reorder thresholds) adjust inventory risk and slightly affect overall health.".

Definition fallback_sentence : string :=
  "Simulation uses current baseline assumptions to project revenue, cash and risk over the next four periods.".

(** The intermediate values of [runLocalSimulation], in the order and under
    the names of the source. *)
Section Locals.

Variable p : SimulationParams.

Definition baseHealth : number := base_health_score (metadata baseResult).
Definition baseExpense : number := base_expense_total (metadata baseResult).
Definition baseFraud : number := fraud_rate_percent (metadata baseResult).

Definition baseRevenue0 : number := baseExpense * 1.4.
Definition baseSeries : list number :=
  map (fun i => baseRevenue0 * (1 + 0.03 * i)) [0; 1; 2; 3].
Definition revenueSeries : list number :=
  map (fun v => v * sales_growth_multiplier p) baseSeries.

Definition simulatedExpenseTotal : number :=
  baseExpense * expense_growth_multiplier p.
Definition revenueSum : number :=
  fold_left (fun acc v => acc + v) revenueSeries 0.
Definition expenseSum : number := simulatedExpenseTotal * 4.
Definition projectedCash : number := 100000 + revenueSum - expenseSum.

Definition fraudComponent : number :=
  baseFraud * (0.6 * fraud_sensitivity p).
Definition inventoryComponent : number :=
  (supplier_delay_factor p - 1) * 40
  + (reorder_threshold_multiplier p - 1) * 25.
Definition expenseComponent : number :=
  (expense_growth_multiplier p - 1) * 60.
Definition rawRisk : number :=
  fraudComponent + inventoryComponent + expenseComponent.
Definition riskIndex : number := Math.max 0 (Math.min 100 rawRisk).

Definition revenueVsExpenseDelta : number :=
  (sales_growth_multiplier p - expense_growth_multiplier p) * 18.
Definition riskDelta : number := - ((riskIndex - 40) / 4.5).
Definition supplierDelta : number := - (supplier_delay_factor p - 1) * 10.
Definition healthDelta : number :=
  revenueVsExpenseDelta + riskDelta + supplierDelta.
Definition newHealth : number :=
  Math.max 0 (Math.min 100 (baseHealth + healthDelta)).
Definition deltaFromBase : number := newHealth - baseHealth.

Definition revenueForecast : list ForecastPoint :=
  Array_mapi
    (fun v i =>
       {| period := ("P" ++ Number_toString (Z.of_nat i + 1))%string;
          value := inject_Z (Math.round v) |})
    revenueSeries.

(** The array [explanationParts] after each of the four conditional
    pushes. *)
Definition explanationParts0 : list string := [].

Definition explanationParts1 : list string :=
  if strict_ne (sales_growth_multiplier p) 1 then
    let pct := Math.round ((sales_growth_multiplier p - 1) * 100) in
    Array_push explanationParts0 (sales_sentence pct)
  else explanationParts0.

Definition explanationParts2 : list string :=
  if strict_ne (expense_growth_multiplier p) 1 then
    let pct := Math.round ((expense_growth_multiplier p - 1) * 100) in
    Array_push explanationParts1 (expense_sentence pct)
  else explanationParts1.

Definition explanationParts3 : list string :=
  if strict_ne (fraud_sensitivity p) 1 then
    Array_push explanationParts2 (fraud_sentence (fraud_sensitivity p))
  else explanationParts2.

Definition explanationParts : list string :=
  if strict_ne (supplier_delay_factor p) 1
     || strict_ne (reorder_threshold_multiplier p) 1
  then Array_push explanationParts3 supply_chain_sentence
  else explanationParts3.

Definition explanation : string :=
  string_or (Array_join explanationParts " ") fallback_sentence.

Definition runLocalSimulation : SimulationResult := {|
  new_health_score := parseFloat (toFixed newHealth 1);
  delta_from_base := parseFloat (toFixed deltaFromBase 1);
  projected_cash := inject_Z (Math.round projectedCash);
  risk_index := parseFloat (toFixed riskIndex 1);
  revenue_forecast := revenueForecast;
  explanation_summary := explanation;
  metadata := metadata baseResult
|}.

End Locals.

(** ** Vocabulary of the specification *)

(** All five levers at their neutral value. *)
Definition neutral (p : SimulationParams) : Prop :=
  sales_growth_multiplier p == 1 /\ expense_growth_multiplier p == 1
  /\ fraud_sensitivity p == 1 /\ supplier_delay_factor p == 1
  /\ reorder_threshold_multiplier p == 1.

(** The two parameter vectors agree on every lever but the sales growth. *)
Definition same_but_sales (p q : SimulationParams) : Prop :=
  expense_growth_multiplier p == expense_growth_multiplier q
  /\ fraud_sensitivity p == fraud_sensitivity q
  /\ supplier_delay_factor p == supplier_delay_factor q
  /\ reorder_threshold_multiplier p == reorder_threshold_multiplier q.

Definition is_integer (x : number) : bool :=
  Qeq_bool x (inject_Z (Qfloor x)).

(** One decimal digit: ten times the value is an integer. *)
Definition one_decimal (x : number) : bool := is_integer (10 * x).

Definition within_0_100 (x : number) : Prop := 0 <= x /\ x <= 100.

(** Rounding to the nearest integer, a tie going away from zero: what
    [toFixed] does to the scaled number. *)
Definition round_half_away (x : number) : Z :=
  if Qlt_le_dec x 0 then (- Qfloor (- x + 0.5))%Z else Qfloor (x + 0.5).

(** Rounding to one decimal: what [parseFloat(x.toFixed(1))] amounts to. *)
Definition round1 (x : number) : number :=
  inject_Z (round_half_away (x * 10)) / 10.

(** The revenue of period [i] (counted from 0) as section 4.1 of the
    specification gives it, on the constant baseline. *)
Definition spec_revenue (p : SimulationParams) (i : Z) : number :=
  50000 * 1.4 * (1 + 0.03 * inject_Z i) * sales_growth_multiplier p.

(** The cash position before rounding as section 4.2 gives it. *)
Definition spec_cash (p : SimulationParams) : number :=
  100000
  + (spec_revenue p 0 + spec_revenue p 1 + spec_revenue p 2
     + spec_revenue p 3)
  - 50000 * expense_growth_multiplier p * 4.

(** The explanation as section 4.5 words it: the levers are looked at in a
    fixed order, each contributes its sentence when it differs from 1, the
    two supply-chain levers share one sentence, the sentences are put
    together with single spaces, and one fixed sentence stands in when no
    lever differs. *)
Definition differs (x : number) : bool := negb (Qeq_bool x 1).

Definition lever_sentences (p : SimulationParams) : list (bool * string) :=
  [ (differs (sales_growth_multiplier p),
     sales_sentence (Math.round ((sales_growth_multiplier p - 1) * 100)));
    (differs (expense_growth_multiplier p),
     expense_sentence (Math.round ((expense_growth_multiplier p - 1) * 100)));
    (differs (fraud_sensitivity p),
     fraud_sentence (fraud_sensitivity p));
    (differs (supplier_delay_factor p)
     || differs (reorder_threshold_multiplier p),
     supply_chain_sentence) ].

Definition active_sentences (p : SimulationParams) : list string :=
  map snd (filter fst (lever_sentences p)).

Definition spec_explanation (p : SimulationParams) : string :=
  match active_sentences p with
  | [] => fallback_sentence
  | sentences => String.concat " " sentences
  end.

(** The parameters of the expense scenario: the expense growth at 1.3,
    every other lever at 1. *)
Definition expense_scenario (p : SimulationParams) : Prop :=
  sales_growth_multiplier p == 1 /\ expense_growth_multiplier p == 1.3
  /\ fraud_sensitivity p == 1 /\ supplier_delay_factor p == 1
  /\ reorder_threshold_multiplier p == 1.

(** ** The rest of the simulation panel *)

(** [currentResult || baseResult]: the last result of a run, the constant
    base result before the first run. *)
Definition activeResult (currentResult : option SimulationResult)
  : SimulationResult :=
  match currentResult with
  | Some result => result
  | None => baseResult
  end.

(** The memoised [revenueDelta]: the forecast values of the current result
    summed, minus those of the base result; 0 before the first run. *)
Definition revenueDelta (currentResult : option SimulationResult) : number :=
  match currentResult with
  | None => 0
  | Some current =>
      let baseSum :=
        fold_left (fun acc r => acc + value r) (revenue_forecast baseResult) 0 in
      let curSum :=
        fold_left (fun acc r => acc + value r) (revenue_forecast current) 0 in
      curSum - baseSum
  end.

(** The text of the health card. *)
Definition health_text (r : SimulationResult) : string :=
  toFixed (new_health_score r) 1.

(** The value of the risk card. *)
Definition risk_text (r : SimulationResult) : string :=
  toFixed (risk_index r) 1.

(** The keys of [SimulationParams], and [updateParam]: the object spread
    [{ ...prev, [key]: value }]. *)
Inductive ParamKey :=
| SalesGrowth
| ExpenseGrowth
| FraudSensitivity
| SupplierDelay
| ReorderThreshold.

Definition getParam (key : ParamKey) (p : SimulationParams) : number :=
  match key with
  | SalesGrowth => sales_growth_multiplier p
  | ExpenseGrowth => expense_growth_multiplier p
  | FraudSensitivity => fraud_sensitivity p
  | SupplierDelay => supplier_delay_factor p
  | ReorderThreshold => reorder_threshold_multiplier p
  end.

Definition updateParam (key : ParamKey) (v : number) (prev : SimulationParams)
  : SimulationParams :=
  {| sales_growth_multiplier :=
       match key with SalesGrowth => v | _ => sales_growth_multiplier prev end;
     expense_growth_multiplier :=
       match key with ExpenseGrowth => v | _ => expense_growth_multiplier prev end;
     fraud_sensitivity :=
       match key with FraudSensitivity => v | _ => fraud_sensitivity prev end;
     supplier_delay_factor :=
       match key with SupplierDelay => v | _ => supplier_delay_factor prev end;
     reorder_threshold_multiplier :=
       match key with
       | ReorderThreshold => v
       | _ => reorder_threshold_multiplier prev
       end |}.

(** The state of the panel and its two handlers: a slider writes one
    parameter, the button runs the simulation on the current ones. *)
Record PanelState := {
  params : SimulationParams;
  currentResult : option SimulationResult;
  loading : bool
}.

Definition initialState : PanelState :=
  {| params := DEFAULT_PARAMS; currentResult := None; loading := false |}.

Definition onSlider (key : ParamKey) (v : number) (st : PanelState)
  : PanelState :=
  {| params := updateParam key v (params st);
     currentResult := currentResult st;
     loading := loading st |}.

Definition handleRun (st : PanelState) : PanelState :=
  {| params := params st;
     currentResult := Some (runLocalSimulation (params st));
     loading := false |}.

(** The orders in which the levers push the risk up and the health down. *)
Definition risk_levers_le (p q : SimulationParams) : Prop :=
  expense_growth_multiplier p <= expense_growth_multiplier q
  /\ fraud_sensitivity p <= fraud_sensitivity q
  /\ supplier_delay_factor p <= supplier_delay_factor q
  /\ reorder_threshold_multiplier p <= reorder_threshold_multiplier q.

Definition health_levers_le (p q : SimulationParams) : Prop :=
  sales_growth_multiplier p <= sales_growth_multiplier q
  /\ risk_levers_le q p.

(** A sequence of slider moves, applied in order. *)
Definition onSliders (moves : list (ParamKey * number)) (st : PanelState)
  : PanelState :=
  fold_left (fun s m => onSlider (fst m) (snd m) s) moves st.

(** ** The vendors page

    The first component of [Vendors.tsx] derives the vendor list from the
    inventory rows kept in local storage.  Strings are sequences of code
    units below 256; rows are typed as the source declares them. *)

Module VendorsPage.

Record InventoryRow := {
  vendor : option string;
  quantity : option number
}.

Record Vendor := {
  id : number;
  name : string;
  rating : number
}.

(** White space and line terminators among the code units below 256: tab,
    line feed, vertical tab, form feed, carriage return, space and the
    no-break space. *)
Definition is_white_space (c : ascii) : bool :=
  let n := nat_of_ascii c in
  ((9 <=? n) && (n <=? 13) || (n =? 32) || (n =? 160))%nat.

Fixpoint trimStart (s : string) : string :=
  match s with
  | String c rest => if is_white_space c then trimStart rest else s
  | EmptyString => EmptyString
  end.

Fixpoint trimEnd (s : string) : string :=
  match s with
  | String c rest =>
      match trimEnd rest with
      | EmptyString => if is_white_space c then EmptyString else String c EmptyString
      | kept => String c kept
      end
  | EmptyString => EmptyString
  end.

(** [String.prototype.trim]. *)
Definition trim (s : string) : string := trimEnd (trimStart s).

(** [row.vendor?.trim()]: [None] stands for [undefined]. *)
Definition vendor_key (row : InventoryRow) : option string :=
  option_map trim (vendor row).

(** [filter((v): v is string => !!v && v.length > 0)]. *)
Fixpoint filter_strings (vs : list (option string)) : list string :=
  match vs with
  | [] => []
  | Some v :: rest =>
      if (0 <? String.length v)%nat then v :: filter_strings rest
      else filter_strings rest
  | None :: rest => filter_strings rest
  end.

(** [new Set(values)] read back by [Array.from]: the distinct values in
    the order in which they first occur. *)
Definition Set_add (set : list string) (v : string) : list string :=
  if existsb (String.eqb v) set then set else set ++ [v].

Definition Array_from_Set (values : list string) : list string :=
  fold_left Set_add values [].

Definition uniqueVendors (inventory_data : list InventoryRow) : list string :=
  Array_from_Set (filter_strings (map vendor_key inventory_data)).

(** [row.vendor?.trim() === vendorName]. *)
Definition is_item_of (vendorName : string) (row : InventoryRow) : bool :=
  match vendor_key row with
  | Some v => String.eqb v vendorName
  | None => false
  end.

(** [Number(item.quantity || 0)]: 0 for a missing quantity (and for 0). *)
Definition quantity_or_0 (item : InventoryRow) : number :=
  match quantity item with
  | Some q => if Qeq_bool q 0 then 0 else q
  | None => 0
  end.

(** [Number(s)] on the numerals [toFixed] prints, where it reads the value
    [parseFloat] reads. *)
Definition Number_of_string (s : string) : number := parseFloat s.

Definition gt (a b : number) : bool := negb (Qle_bool a b).
Definition lt (a b : number) : bool := negb (Qle_bool b a).

(** The rating of a vendor with [totalProducts] rows of average quantity
    [avgQuantity], on the scale 1 to 5, as the assignments to [rating]
    compute it. *)
Definition rating_1_to_5 (totalProducts : nat) (avgQuantity : number)
  : number :=
  let rating := 3 in
  let rating := rating + inject_Z (Z.of_nat totalProducts) * 0.2 in
  let rating := rating - (if gt avgQuantity 200 then 0.3 else 0) in
  let rating := rating + (if lt avgQuantity 100 then 0.5 else 0) in
  Math.max 1 (Math.min 5 (Number_of_string (toFixed rating 1))).

Definition vendorItems (inventory_data : list InventoryRow)
  (vendorName : string) : list InventoryRow :=
  filter (is_item_of vendorName) inventory_data.

(** The average quantity of the rows of a vendor.  The sum is exact here,
    and so independent of the order of the rows; the binary64 sum, which
    is rounded after every addition, is in [VendorsPage64]. *)
Definition avgQuantity (items : list InventoryRow) : number :=
  let totalProducts := List.length items in
  if (0 <? totalProducts)%nat
  then fold_left (fun sum item => sum + quantity_or_0 item) items 0
       / inject_Z (Z.of_nat totalProducts)
  else 0.

(** The vendor list put into the state of the page. *)
Definition computed (inventory_data : list InventoryRow) : list Vendor :=
  Array_mapi
    (fun vendorName index =>
       let items := vendorItems inventory_data vendorName in
       let totalProducts := List.length items in
       let rating := rating_1_to_5 totalProducts (avgQuantity items) in
       {| id := inject_Z (Z.of_nat index + 1);
          name := vendorName;
          rating := inject_Z (Math.round (rating * 20)) |})
    (uniqueVendors inventory_data).

End VendorsPage.

(** A string that does not start with white space. *)
Definition starts_clean (s : string) : Prop :=
  match s with
  | String c _ => VendorsPage.is_white_space c = false
  | EmptyString => True
  end.

(** The rows that carry a vendor: the field is there and is not blank. *)
Definition has_vendor (row : VendorsPage.InventoryRow) : bool :=
  match VendorsPage.vendor_key row with
  | Some v => (0 <? String.length v)%nat
  | None => false
  end.

(** The bounds of the five sliders of the panel ([min] and [max] of each
    [SliderField]). *)
Definition slider_min (key : ParamKey) : number :=
  match key with
  | SalesGrowth => 0.8
  | ExpenseGrowth => 0.8
  | FraudSensitivity => 0.5
  | SupplierDelay => 0.8
  | ReorderThreshold => 0.5
  end.

Definition slider_max (key : ParamKey) : number :=
  match key with
  | SalesGrowth => 1.3
  | ExpenseGrowth => 1.3
  | FraudSensitivity => 1.5
  | SupplierDelay => 1.5
  | ReorderThreshold => 1.5
  end.

Definition within_sliders (p : SimulationParams) : Prop :=
  forall key, slider_min key <= getParam key p <= slider_max key.

(** ** The products page *)

(** [Array.prototype.sort] with a comparator.  The standard leaves the
    algorithm open but fixes the result for a consistent comparator: the
    elements in sorted order, those the comparator does not separate in
    their original order.  Insertion from the right computes it: an
    element goes behind the elements of the sorted rest that must come
    before it ([compareFn(x, y) > 0]) and in front of all others. *)
Fixpoint sort_insert {A} (compareFn : A -> A -> number) (x : A)
  (sorted : list A) : list A :=
  match sorted with
  | [] => [x]
  | y :: rest =>
      if Qle_bool (compareFn x y) 0 then x :: sorted
      else y :: sort_insert compareFn x rest
  end.

Definition Array_sort {A} (compareFn : A -> A -> number) (xs : list A)
  : list A :=
  fold_right (sort_insert compareFn) [] xs.

Module ProductsPage.

Record Product := {
  id : number;
  name : string;
  demand : number;
  available_quantity : number;
  total_sold : number
}.

Inductive SortOrder := highest | lowest.

Definition compareFn (sortOrder : SortOrder) (a b : Product) : number :=
  match sortOrder with
  | highest => total_sold b - total_sold a
  | lowest => total_sold a - total_sold b
  end.

(** The memoised [sortedProducts]: a copy of the products, sorted. *)
Definition sortedProducts (products : list Product) (sortOrder : SortOrder)
  : list Product :=
  let copy := products in
  Array_sort (compareFn sortOrder) copy.

(** The order the page asks for: the totals go down for [highest], up for
    [lowest]. *)
Definition in_order (sortOrder : SortOrder) (a b : Product) : Prop :=
  match sortOrder with
  | highest => total_sold b <= total_sold a
  | lowest => total_sold a <= total_sold b
  end.

Definition sold (t : number) (p : Product) : bool :=
  Qeq_bool (total_sold p) t.

End ProductsPage.

(** ** The revenue intelligence module *)

Module RevenueIntelligence.

Record RiskInsight := {
  unified_risk_index : number;
  volatility_score : number;
  confidence_percentage : number
}.

Record RevenueInsight := {
  revenue_momentum_index : number;
  sustainability_score : number;
  growth_risk_flag : bool
}.

(** [x ?? d]. *)
Definition nullish {A} (x : option A) (d : A) : A :=
  match x with
  | Some v => v
  | None => d
  end.

Definition sustainability (revenue : option RevenueInsight) : number :=
  nullish (option_map sustainability_score revenue) 0.

Definition growthColor (revenue : option RevenueInsight) : string :=
  if Qle_bool 75 (sustainability revenue) then "#22c594"
  else if Qle_bool 55 (sustainability revenue) then "#fbbf24"
  else "#f84646".

Definition uriColor (risk : option RiskInsight) : string :=
  if negb (Qle_bool 40 (nullish (option_map unified_risk_index risk) 0))
  then "#22c594"
  else if negb (Qle_bool 70 (nullish (option_map unified_risk_index risk) 0))
  then "#fbbf24"
  else "#f84646".

(** How alarming a colour of the module is: green, amber, red. *)
Definition alarm (colour : string) : nat :=
  if String.eqb colour "#22c594" then 0
  else if String.eqb colour "#fbbf24" then 1
  else 2.

End RevenueIntelligence.

(** ** The numbers of the simulation in binary64

    The exact model above has no rounding, no infinities and no NaN.  The
    numeric fields of [runLocalSimulation] are therefore modelled a second
    time on IEEE 754 binary64 numbers, with the arithmetic of the standard
    library's [SpecFloat] (round to nearest, ties to even).  Comparisons,
    [Math.round] and [toFixed] go by the exact value of a number, as their
    definitions in ECMAScript do. *)

Module Binary64.

Definition double := spec_float.

Definition prec : Z := 53.
Definition emax : Z := 1024.

Definition add : double -> double -> double := SFadd prec emax.
Definition sub : double -> double -> double := SFsub prec emax.
Definition mul : double -> double -> double := SFmul prec emax.
Definition div : double -> double -> double := SFdiv prec emax.
Definition opp : double -> double := SFopp.

(** The number an integer literal denotes. *)
Definition of_int (z : Z) : double := binary_normalize prec emax z 0 false.

(** The number nearest to [num / den] (with the sign [negative]): what a
    decimal literal or a string of decimal digits denotes. *)
Definition nearest (negative : bool) (num : Z) (den : positive) : double :=
  match num with
  | Zpos m => div (S754_finite negative m 0) (S754_finite false den 0)
  | _ => S754_zero negative
  end.

Definition is_nan (x : double) : bool :=
  match x with
  | S754_nan => true
  | _ => false
  end.

(** Zero or finite: a number that has a value. *)
Definition is_finite (x : double) : bool :=
  match x with
  | S754_zero _ | S754_finite _ _ _ => true
  | _ => false
  end.

(** The exact value of a finite number; 0 for the others. *)
Definition value (x : double) : Q :=
  match x with
  | S754_finite s m e => inject_Z (cond_Zopp s (Zpos m)) * 2 ^ e
  | _ => 0
  end.

(** [x < y]: false when either is NaN. *)
Definition lt (x y : double) : bool :=
  match x, y with
  | S754_nan, _ | _, S754_nan => false
  | S754_infinity s1, S754_infinity s2 => s1 && negb s2
  | S754_infinity s, _ => s
  | _, S754_infinity s => negb s
  | _, _ => negb (Qle_bool (value y) (value x))
  end.

Definition is_zero (negative : bool) (x : double) : bool :=
  match x with
  | S754_zero s => Bool.eqb s negative
  | _ => false
  end.

(** [Math.max(a, b)] and [Math.min(a, b)]: NaN when either is NaN; +0
    counts as larger than -0. *)
Definition Math_max (a b : double) : double :=
  if is_nan a || is_nan b then S754_nan
  else if is_zero false b && is_zero true a then b
  else if lt a b then b
  else a.

Definition Math_min (a b : double) : double :=
  if is_nan a || is_nan b then S754_nan
  else if is_zero true b && is_zero false a then b
  else if lt b a then b
  else a.

(** [Math.round]: NaN, the infinities and the integers are returned as
    they are; another number goes to [floor(x + 0.5)], which is -0 for a
    negative [x] that rounds to zero. *)
Definition Math_round (x : double) : double :=
  match x with
  | S754_finite s m e =>
      if (0 <=? e)%Z then x
      else
        let z := Qfloor (value x + 0.5) in
        if (z =? 0)%Z then S754_zero s else of_int z
  | _ => x
  end.

(** [x.toFixed(f)]: ["NaN"] and ["Infinity"] for the numbers without a
    value, the digits of the exact value otherwise.  (From 1e21 on
    JavaScript prints exponent notation; the model keeps positional digits
    there.  The simulation calls [toFixed] on NaN and within 100 of zero
    only, see [fixed_arguments_small]; the vendor rating calls it on about
    a fifth of the number of rows of a vendor.) *)
Definition toFixed (x : double) (fractionDigits : nat) : string :=
  match x with
  | S754_nan => "NaN"
  | S754_infinity s => if s then "-Infinity" else "Infinity"
  | _ => toFixed (value x) fractionDigits
  end.

(** [parseFloat] on the strings [toFixed] prints: a sign, then either
    [Infinity] or digits with an optional fraction; NaN when there is
    neither.  The digits denote the number nearest to their decimal
    value. *)
Definition parseFloat (s : string) : double :=
  let '(negative, s1) :=
    match s with
    | String c rest =>
        if (c =? "-")%char then (true, rest)
        else if (c =? "+")%char then (false, rest)
        else (false, s)
    | EmptyString => (false, s)
    end in
  if String.prefix "Infinity" s1 then S754_infinity negative
  else
    let '(int_part, int_count, s2) := Numeral.parse_digits s1 0 0 in
    let '(frac_part, frac_count, _) :=
      match s2 with
      | String c rest =>
          if (c =? ".")%char then Numeral.parse_digits rest 0 0
          else (0%Z, O, s2)
      | EmptyString => (0%Z, O, s2)
      end in
    match int_count, frac_count with
    | O, O => S754_nan
    | _, _ =>
        nearest negative
          (int_part * 10 ^ Z.of_nat frac_count + frac_part)
          (Z.to_pos (10 ^ Z.of_nat frac_count))
    end.

(** The parameters and the numeric fields of the result. *)
Record SimulationParams := {
  sales_growth_multiplier : double;
  expense_growth_multiplier : double;
  fraud_sensitivity : double;
  supplier_delay_factor : double;
  reorder_threshold_multiplier : double
}.

Record SimulationNumbers := {
  new_health_score : double;
  delta_from_base : double;
  projected_cash : double;
  risk_index : double;
  revenue_forecast : list double
}.

Section Locals.

Variable p : SimulationParams.

Definition baseHealth : double := of_int 75.
Definition baseExpense : double := of_int 50000.
Definition baseFraud : double := of_int 10.

Definition baseRevenue0 : double := mul baseExpense (nearest false 14 10).
Definition baseSeries : list double :=
  map (fun i => mul baseRevenue0
                  (add (of_int 1) (mul (nearest false 3 100) (of_int i))))
    [0; 1; 2; 3]%Z.
Definition revenueSeries : list double :=
  map (fun v => mul v (sales_growth_multiplier p)) baseSeries.

Definition simulatedExpenseTotal : double :=
  mul baseExpense (expense_growth_multiplier p).
Definition revenueSum : double :=
  fold_left (fun acc v => add acc v) revenueSeries (of_int 0).
Definition expenseSum : double := mul simulatedExpenseTotal (of_int 4).
Definition projectedCash : double :=
  sub (add (of_int 100000) revenueSum) expenseSum.

Definition fraudComponent : double :=
  mul baseFraud (mul (nearest false 6 10) (fraud_sensitivity p)).
Definition inventoryComponent : double :=
  add (mul (sub (supplier_delay_factor p) (of_int 1)) (of_int 40))
      (mul (sub (reorder_threshold_multiplier p) (of_int 1)) (of_int 25)).
Definition expenseComponent : double :=
  mul (sub (expense_growth_multiplier p) (of_int 1)) (of_int 60).
Definition rawRisk : double :=
  add (add fraudComponent inventoryComponent) expenseComponent.
Definition riskIndex : double :=
  Math_max (of_int 0) (Math_min (of_int 100) rawRisk).

Definition revenueVsExpenseDelta : double :=
  mul (sub (sales_growth_multiplier p) (expense_growth_multiplier p))
      (of_int 18).
Definition riskDelta : double :=
  opp (div (sub riskIndex (of_int 40)) (nearest false 45 10)).
Definition supplierDelta : double :=
  mul (opp (sub (supplier_delay_factor p) (of_int 1))) (of_int 10).
Definition healthDelta : double :=
  add (add revenueVsExpenseDelta riskDelta) supplierDelta.
Definition rawHealth : double := add baseHealth healthDelta.
Definition newHealth : double :=
  Math_max (of_int 0) (Math_min (of_int 100) rawHealth).
Definition deltaFromBase : double := sub newHealth baseHealth.

Definition runLocalSimulation : SimulationNumbers := {|
  new_health_score := parseFloat (toFixed newHealth 1);
  delta_from_base := parseFloat (toFixed deltaFromBase 1);
  projected_cash := Math_round projectedCash;
  risk_index := parseFloat (toFixed riskIndex 1);
  revenue_forecast := map Math_round revenueSeries
|}.

End Locals.

(** A number between 0 and 100. *)
Definition within_0_100 (x : double) : Prop :=
  is_finite x = true /\ 0 <= value x /\ value x <= 100.

(** A number printed with one decimal digit and read back: the number
    nearest to a whole number of tenths. *)
Definition one_decimal (x : double) : Prop :=
  is_finite x = true
  /\ exists (negative : bool) (tenths : Z), x = nearest negative tenths 10.

(** A number whose value is whole. *)
Definition is_integer (x : double) : Prop :=
  is_finite x = true /\ exists z : Z, value x == inject_Z z.

(** [y] is what rounding to a whole number makes of [x]: [x] itself when
    that is NaN or an infinity, and a whole number whenever it is
    finite. *)
Definition rounded_from (x y : double) : Prop :=
  (is_finite x = false -> y = x) /\ (is_finite y = true -> is_integer y).

(** Small enough for [toFixed] to print positional digits: NaN, or within
    100 of zero. *)
Definition prints_digits (x : double) : Prop :=
  x = S754_nan \/ is_finite x = true /\ - (100) <= value x <= 100.

(** The value of the mantissa [m] at the exponent [e]. *)
Definition scaled (m e : Z) : Q := inject_Z m * 2 ^ e.

(** What the rounding functions of [SpecFloat] return for the mantissa [m]
    at the exponent [e]. *)
Definition packed (s : bool) (m e : Z) : double :=
  match m with
  | Z0 => S754_zero s
  | Zpos m => if (e <=? emax - prec)%Z then S754_finite s m e
              else S754_infinity s
  | Zneg _ => S754_nan
  end.

End Binary64.

(** [within_0_100] as a test. *)
Definition within_0_100_b (x : Binary64.double) : bool :=
  Binary64.is_finite x
  && Qle_bool 0 (Binary64.value x) && Qle_bool (Binary64.value x) 100.

(** ** The vendor rating in binary64

    The rating of a vendor whose rows carry the quantities [quantities],
    in the order of the rows (lines 47 to 66 of the vendors page). *)

Module VendorsPage64.
Import Binary64.

(** [Number(item.quantity || 0)]: 0 for a missing quantity, for a zero and
    for NaN. *)
Definition quantity_or_0 (quantity : option double) : double :=
  match quantity with
  | Some (S754_finite s m e) => S754_finite s m e
  | Some (S754_infinity s) => S754_infinity s
  | _ => of_int 0
  end.

Definition avgQuantity (quantities : list (option double)) : double :=
  let totalProducts := List.length quantities in
  if (0 <? totalProducts)%nat
  then div (fold_left (fun sum item => add sum (quantity_or_0 item))
              quantities (of_int 0))
           (of_int (Z.of_nat totalProducts))
  else of_int 0.

Definition rating_1_to_5 (totalProducts : nat) (avgQuantity : double)
  : double :=
  let rating := of_int 3 in
  let rating :=
    add rating (mul (of_int (Z.of_nat totalProducts)) (nearest false 2 10)) in
  let rating :=
    sub rating (if lt (of_int 200) avgQuantity then nearest false 3 10
                else of_int 0) in
  let rating :=
    add rating (if lt avgQuantity (of_int 100) then nearest false 5 10
                else of_int 0) in
  Math_max (of_int 1) (Math_min (of_int 5) (parseFloat (toFixed rating 1))).

(** The [rating] field of the vendor. *)
Definition rating (quantities : list (option double)) : double :=
  Math_round
    (mul (rating_1_to_5 (List.length quantities) (avgQuantity quantities))
         (of_int 20)).

End VendorsPage64.

(** * Properties *)

(** ** Strings *)

Lemma append_assoc (a b c : string) :
  ((a ++ b) ++ c)%string = (a ++ b ++ c)%string.
Proof. induction a as [| x a IH]; simpl; [reflexivity | now rewrite IH]. Qed.

Lemma append_nil_r (a : string) : (a ++ "")%string = a.
Proof. induction a as [| x a IH]; simpl; [reflexivity | now rewrite IH]. Qed.

Lemma length_append (a b : string) :
  String.length (a ++ b) = (String.length a + String.length b)%nat.
Proof. induction a as [| x a IH]; simpl; [reflexivity | now rewrite IH]. Qed.

(** ** Decimal numerals *)

Module NumeralFacts.
Import Numeral.

Local Open Scope Z_scope.

Lemma digit_value_char (d : Z) :
  0 <= d < 10 -> digit_value (digit_char d) = Some d.
Proof.
  intros H.
  assert (E : d = 0 \/ d = 1 \/ d = 2 \/ d = 3 \/ d = 4 \/ d = 5 \/ d = 6
              \/ d = 7 \/ d = 8 \/ d = 9) by lia.
  repeat (destruct E as [-> | E]; [reflexivity |]); subst d; reflexivity.
Qed.

Lemma digit_value_range (c : ascii) (d : Z) :
  digit_value c = Some d -> 0 <= d < 10.
Proof.
  unfold digit_value.
  destruct (_ && _)%bool eqn:E; [| discriminate].
  intros [= <-]. apply andb_prop in E. lia.
Qed.

Lemma all_digits_app (a b : string) :
  all_digits (a ++ b) = (all_digits a && all_digits b)%bool.
Proof.
  induction a as [| c a IH]; simpl; [reflexivity |].
  destruct (digit_value c); [exact IH | reflexivity].
Qed.

Lemma digits_value_app (a b : string) (acc : Z) :
  all_digits a = true ->
  digits_value (a ++ b) acc = digits_value b (digits_value a acc).
Proof.
  revert acc; induction a as [| c a IH]; intros acc; simpl; [reflexivity |].
  destruct (digit_value c); [apply IH | discriminate].
Qed.

Lemma digits_value_shift (s : string) (acc : Z) :
  all_digits s = true ->
  digits_value s acc
  = acc * 10 ^ Z.of_nat (String.length s) + digits_value s 0.
Proof.
  revert acc; induction s as [| c s IH]; intros acc; simpl String.length.
  - simpl. lia.
  - simpl all_digits. simpl digits_value.
    destruct (digit_value c) as [d |]; [| discriminate].
    intros H. rewrite (IH (acc * 10 + d) H), (IH d H).
    rewrite Nat2Z.inj_succ, Z.pow_succ_r by lia. ring.
Qed.

Lemma digits_value_bound (s : string) :
  all_digits s = true ->
  0 <= digits_value s 0 < 10 ^ Z.of_nat (String.length s).
Proof.
  induction s as [| c s IH]; [simpl; lia |].
  simpl all_digits. simpl digits_value. simpl String.length.
  destruct (digit_value c) as [d |] eqn:E; [| discriminate].
  intros H. apply digit_value_range in E.
  rewrite digits_value_shift by exact H.
  specialize (IH H).
  rewrite Nat2Z.inj_succ, Z.pow_succ_r by lia. nia.
Qed.

(** The digits printed in front of [acc] denote [n]. *)
Lemma digits_acc_spec (fuel : nat) (n : Z) (acc : string) :
  (0 < fuel)%nat -> 0 <= n < 10 ^ Z.of_nat fuel ->
  exists ds : string,
    digits_acc fuel n acc = (ds ++ acc)%string
    /\ all_digits ds = true
    /\ digits_value ds 0 = n
    /\ (0 < String.length ds)%nat.
Proof.
  revert n acc; induction fuel as [| fuel IH]; intros n acc Hf Hn; [lia |].
  assert (Hd : 0 <= n mod 10 < 10) by (apply Z.mod_pos_bound; lia).
  assert (Hc := digit_value_char _ Hd).
  cbn [digits_acc]. destruct (n / 10 =? 0) eqn:E.
  - apply Z.eqb_eq in E.
    exists (String (digit_char (n mod 10)) EmptyString).
    cbn [append all_digits digits_value String.length]. rewrite Hc.
    repeat split; try lia.
    rewrite (Z.div_mod n 10) at 2 by lia. lia.
  - apply Z.eqb_neq in E.
    assert (Hq : 0 <= n / 10 < 10 ^ Z.of_nat fuel).
    { split; [apply Z.div_pos; lia |].
      apply Z.div_lt_upper_bound; [lia |].
      rewrite Nat2Z.inj_succ, Z.pow_succ_r in Hn; lia. }
    assert (Hf' : (0 < fuel)%nat).
    { destruct fuel; [simpl in Hq; lia | lia]. }
    destruct (IH (n / 10) (String (digit_char (n mod 10)) acc) Hf' Hq)
      as (ds & -> & Hall & Hval & Hlen).
    exists (ds ++ String (digit_char (n mod 10)) EmptyString)%string.
    repeat split.
    + rewrite append_assoc. reflexivity.
    + rewrite all_digits_app, Hall. cbn [all_digits andb].
      rewrite Hc. reflexivity.
    + rewrite digits_value_app by exact Hall. cbn [digits_value].
      rewrite Hc, Hval.
      rewrite (Z.div_mod n 10) at 3 by lia. lia.
    + rewrite length_append. lia.
Qed.

Lemma log2_fuel (n : Z) :
  0 <= n -> n < 10 ^ Z.of_nat (S (Z.to_nat (Z.log2 n))).
Proof.
  intros Hn. rewrite Nat2Z.inj_succ, Z2Nat.id by apply Z.log2_nonneg.
  destruct (Z.eq_dec n 0) as [-> | Hz]; [reflexivity |].
  apply Z.lt_le_trans with (2 ^ Z.succ (Z.log2 n)).
  - apply Z.log2_spec. lia.
  - apply Z.pow_le_mono_l. split; [lia | lia].
Qed.

Lemma digits_spec (n : Z) :
  0 <= n ->
  all_digits (digits n) = true
  /\ digits_value (digits n) 0 = n
  /\ (0 < String.length (digits n))%nat.
Proof.
  intros Hn. unfold digits.
  destruct (digits_acc_spec (S (Z.to_nat (Z.log2 n))) n EmptyString)
    as (ds & -> & Hall & Hval & Hlen).
  - lia.
  - split; [exact Hn | apply log2_fuel; exact Hn].
  - rewrite all_digits_app, Hall, digits_value_app by exact Hall.
    rewrite length_append. simpl. repeat split; [exact Hval | lia].
Qed.

Lemma zeros_spec (k : nat) :
  all_digits (zeros k) = true
  /\ digits_value (zeros k) 0 = 0
  /\ String.length (zeros k) = k.
Proof.
  induction k as [| k (Ha & Hv & Hl)]; simpl; [auto |].
  repeat split; [exact Ha | exact Hv | congruence].
Qed.

Lemma take_drop (k : nat) (s : string) : (take k s ++ drop k s)%string = s.
Proof.
  revert s; induction k as [| k IH]; intros [| c s]; simpl; try reflexivity.
  rewrite IH. reflexivity.
Qed.

Lemma length_drop (k : nat) (s : string) :
  String.length (drop k s) = (String.length s - k)%nat.
Proof.
  revert s; induction k as [| k IH]; intros [| c s]; simpl; try reflexivity.
  apply IH.
Qed.

(** A run of digits followed by something that is no digit is read whole. *)
Lemma parse_digits_run (ds rest : string) (acc : Z) (count : nat) :
  all_digits ds = true ->
  match rest with
  | String c _ => digit_value c = None
  | EmptyString => True
  end ->
  parse_digits (ds ++ rest) acc count
  = (digits_value ds acc, (count + String.length ds)%nat, rest).
Proof.
  intros Hds Hrest. revert acc count.
  induction ds as [| c ds IH]; intros acc count; simpl.
  - rewrite Nat.add_0_r. destruct rest as [| c rest]; [reflexivity |].
    cbn [parse_digits]. rewrite Hrest. reflexivity.
  - simpl in Hds. destruct (digit_value c); [| discriminate].
    rewrite (IH Hds). f_equal. f_equal. lia.
Qed.
End NumeralFacts.

(** ** [toFixed] and [parseFloat] *)

Section ParseFixed.
Import Numeral NumeralFacts.

Lemma digit_not_mark (c : ascii) (d : Z) :
  digit_value c = Some d ->
  (c =? "-")%char = false /\ (c =? "+")%char = false
  /\ (c =? ".")%char = false.
Proof.
  intros H. repeat split.
  all: match goal with |- (?x =? ?m)%char = false =>
         destruct (Ascii.eqb_spec x m) as [E |];
         [rewrite E in H; vm_compute in H; discriminate H | reflexivity]
       end.
Qed.

Lemma pow10_pos (f : nat) : (0 < 10 ^ Z.of_nat f)%Z.
Proof. apply Z.pow_pos_nonneg; lia. Qed.

(** The value of an unsigned numeral [a.b]. *)
Lemma parseFloat_point (a b : string) :
  all_digits a = true -> all_digits b = true ->
  (0 < String.length a)%nat ->
  parseFloat (a ++ "." ++ b)
  == inject_Z (digits_value a 0)
     + inject_Z (digits_value b 0) / inject_Z (10 ^ Z.of_nat (String.length b)).
Proof.
  intros Ha Hb Hlen. unfold parseFloat.
  destruct a as [| c a]; [simpl in Hlen; lia |].
  cbn [append]. cbn [all_digits] in Ha.
  destruct (digit_value c) as [d |] eqn:Hc; [| discriminate].
  destruct (digit_not_mark _ _ Hc) as (-> & -> & _).
  change (String c (a ++ String "." b)) with (String c a ++ String "." b)%string.
  rewrite parse_digits_run; [| cbn [all_digits]; rewrite Hc; exact Ha | reflexivity].
  cbn [Ascii.eqb Bool.eqb].
  rewrite <- (append_nil_r b) at 1.
  rewrite parse_digits_run; [| exact Hb | exact I].
  cbn [Nat.add String.length]. reflexivity.
Qed.

(** The value of an unsigned numeral without point. *)
Lemma parseFloat_whole (a : string) :
  all_digits a = true -> (0 < String.length a)%nat ->
  parseFloat a == inject_Z (digits_value a 0).
Proof.
  intros Ha Hlen. unfold parseFloat.
  destruct a as [| c a]; [simpl in Hlen; lia |].
  pose proof Ha as Ha'. cbn [all_digits] in Ha'.
  destruct (digit_value c) as [d |] eqn:Hc; [| discriminate].
  destruct (digit_not_mark _ _ Hc) as (-> & -> & _).
  rewrite <- (append_nil_r (String c a)).
  rewrite parse_digits_run; [| exact Ha | exact I].
  rewrite append_nil_r.
  cbn [Nat.add String.length]. change (10 ^ Z.of_nat 0)%Z with 1%Z.
  change (inject_Z 0) with 0. change (inject_Z 1) with 1. field.
Qed.

(** A minus sign in front negates the value. *)
Lemma parseFloat_minus (m : string) (c : ascii) (rest : string) (d : Z) :
  m = String c rest -> digit_value c = Some d ->
  parseFloat (String "-" m) == - parseFloat m.
Proof.
  intros -> Hc. unfold parseFloat.
  destruct (digit_not_mark _ _ Hc) as (-> & -> & _).
  cbn [Ascii.eqb Bool.eqb].
  destruct (parse_digits (String c rest) 0 0) as [[ip ic] s2].
  destruct (match s2 with
            | String c0 rest0 =>
                if (c0 =? ".")%char then parse_digits rest0 0 0
                else (0%Z, 0%nat, s2)
            | EmptyString => (0%Z, 0%nat, s2)
            end) as [[fp fc] s3].
  destruct ic, fc; reflexivity.
Qed.

(** The digits of [n] with the point put in denote [n / 10^f], and start
    with a digit. *)
Lemma insert_point_spec (n : Z) (f : nat) :
  (0 <= n)%Z ->
  parseFloat (insert_point (digits n) f)
  == inject_Z n / inject_Z (10 ^ Z.of_nat f)
  /\ exists c rest d,
       insert_point (digits n) f = String c rest /\ digit_value c = Some d.
Proof.
  intros Hn. destruct (digits_spec n Hn) as (Hall & Hval & Hlen).
  assert (Hhead : forall a t : string,
             all_digits a = true -> (0 < String.length a)%nat ->
             exists c rest d,
               (a ++ t)%string = String c rest /\ digit_value c = Some d).
  { intros [| c a] t Ha Hl; [simpl in Hl; lia |].
    cbn [all_digits] in Ha.
    destruct (digit_value c) as [d |] eqn:Hc; [| discriminate].
    exists c, (a ++ t)%string, d. split; [reflexivity | exact Hc]. }
  destruct f as [| f].
  - cbn [insert_point]. split.
    + rewrite parseFloat_whole, Hval by assumption.
      change (10 ^ Z.of_nat 0)%Z with 1%Z. change (inject_Z 1) with 1. field.
    + rewrite <- (append_nil_r (digits n)). apply Hhead; assumption.
  - cbn [insert_point].
    set (m := if (String.length (digits n) <=? S f)%nat
              then (zeros (S f + 1 - String.length (digits n)) ++ digits n)%string
              else digits n).
    assert (Hm : all_digits m = true /\ digits_value m 0 = n
                 /\ (S f < String.length m)%nat).
    { unfold m. destruct (Nat.leb_spec (String.length (digits n)) (S f)).
      - destruct (zeros_spec (S f + 1 - String.length (digits n)))
          as (Za & Zv & Zl).
        rewrite all_digits_app, Za, Hall, digits_value_app, Zv, Hval by exact Za.
        rewrite length_append, Zl. repeat split. lia.
      - repeat split; assumption. }
    destruct Hm as (Ma & Mv & Ml).
    set (k := (String.length m - S f)%nat).
    assert (Hsplit := take_drop k m).
    assert (Hb : String.length (drop k m) = S f).
    { rewrite length_drop. unfold k. lia. }
    assert (Hk : (0 < String.length (take k m))%nat).
    { assert (E : String.length m
                  = (String.length (take k m) + String.length (drop k m))%nat)
        by (rewrite <- length_append, Hsplit; reflexivity).
      lia. }
    assert (Hab : all_digits (take k m) = true /\ all_digits (drop k m) = true).
    { apply andb_prop. rewrite <- all_digits_app, Hsplit. exact Ma. }
    destruct Hab as (Haa & Hbb).
    split; [| apply Hhead; assumption].
    rewrite parseFloat_point by assumption.
    rewrite Hb.
    assert (E : n = (digits_value (take k m) 0 * 10 ^ Z.of_nat (S f)
                     + digits_value (drop k m) 0)%Z).
    { rewrite <- Mv at 1. rewrite <- Hsplit at 1.
      rewrite digits_value_app by exact Haa.
      rewrite digits_value_shift, Hb by exact Hbb. reflexivity. }
    rewrite E at 1. rewrite inject_Z_plus, inject_Z_mult.
    field. intros H0. pose proof (pow10_pos (S f)) as P.
    change 0 with (inject_Z 0) in H0. apply (proj1 (inject_Z_injective _ _)) in H0.
    lia.
Qed.

Lemma round_half_away_nonneg (x : number) :
  0 <= x -> (0 <= Qfloor (x + 0.5))%Z.
Proof.
  intros Hx. apply (Qfloor_resp_le 0 (x + 0.5)). lra.
Qed.

(** What [parseFloat] reads back from [toFixed]: the number rounded to [f]
    decimals, a tie going away from zero. *)
Lemma parseFloat_toFixed (x : number) (f : nat) :
  parseFloat (toFixed x f)
  == inject_Z (round_half_away (x * inject_Z (10 ^ Z.of_nat f)))
     / inject_Z (10 ^ Z.of_nat f).
Proof.
  pose proof (pow10_pos f) as P.
  assert (PQ : 0 < inject_Z (10 ^ Z.of_nat f)).
  { change 0 with (inject_Z 0). rewrite <- Zlt_Qlt. exact P. }
  unfold toFixed, round_half_away.
  destruct (Qlt_le_dec x 0) as [Hneg | Hpos].
  - assert (Hn : (0 <= Qfloor (- x * inject_Z (10 ^ Z.of_nat f) + 0.5))%Z).
    { apply round_half_away_nonneg. nra. }
    destruct (insert_point_spec _ f Hn) as (Hv & c & rest & d & Hm & Hc).
    cbn [append].
    rewrite (parseFloat_minus _ c rest d Hm Hc), Hv.
    destruct (Qlt_le_dec (x * inject_Z (10 ^ Z.of_nat f)) 0) as [_ | Hge];
      [| nra].
    rewrite inject_Z_opp.
    rewrite (Qfloor_comp (- (x * inject_Z (10 ^ Z.of_nat f)) + 0.5)
                         (- x * inject_Z (10 ^ Z.of_nat f) + 0.5))
      by ring.
    field. lra.
  - assert (Hn : (0 <= Qfloor (x * inject_Z (10 ^ Z.of_nat f) + 0.5))%Z).
    { apply round_half_away_nonneg. nra. }
    destruct (insert_point_spec _ f Hn) as (Hv & _).
    cbn [append]. rewrite Hv.
    destruct (Qlt_le_dec (x * inject_Z (10 ^ Z.of_nat f)) 0) as [Hlt | _];
      [nra | reflexivity].
Qed.

Lemma parseFloat_toFixed_1 (x : number) :
  parseFloat (toFixed x 1) == round1 x.
Proof. rewrite parseFloat_toFixed. reflexivity. Qed.
End ParseFixed.

(** ** Rounding and clamping *)

Lemma Math_round_comp (x y : number) : x == y -> Math.round x = Math.round y.
Proof. intros E. unfold Math.round. apply Qfloor_comp. rewrite E. reflexivity. Qed.

Lemma Math_round_mono (x y : number) :
  x <= y -> (Math.round x <= Math.round y)%Z.
Proof.
  intros H. unfold Math.round. apply Qfloor_resp_le.
  unfold number in *. lra.
Qed.

Lemma round_half_away_comp (x y : number) :
  x == y -> round_half_away x = round_half_away y.
Proof.
  intros E. unfold round_half_away.
  destruct (Qlt_le_dec x 0) as [Hx | Hx], (Qlt_le_dec y 0) as [Hy | Hy].
  - f_equal. apply Qfloor_comp. rewrite E. reflexivity.
  - rewrite E in Hx. unfold number in *. lra.
  - rewrite E in Hx. unfold number in *. lra.
  - apply Qfloor_comp. rewrite E. reflexivity.
Qed.

Lemma round1_comp (x y : number) : x == y -> round1 x == round1 y.
Proof.
  intros E. unfold round1.
  rewrite (round_half_away_comp (x * 10) (y * 10)); [reflexivity |].
  rewrite E. reflexivity.
Qed.

Lemma is_integer_iff (x : number) :
  is_integer x = true <-> exists z : Z, x == inject_Z z.
Proof.
  unfold is_integer. rewrite Qeq_bool_iff. split.
  - intros E. exists (Qfloor x). exact E.
  - intros [z E]. rewrite (Qfloor_comp _ _ E), Qfloor_Z. exact E.
Qed.

Lemma is_integer_inject (z : Z) : is_integer (inject_Z z) = true.
Proof. apply is_integer_iff. exists z. reflexivity. Qed.

Lemma one_decimal_round1 (x : number) : one_decimal (round1 x) = true.
Proof.
  unfold one_decimal. apply is_integer_iff.
  exists (round_half_away (x * 10)). unfold round1. field.
Qed.

Lemma one_decimal_comp (x y : number) :
  x == y -> one_decimal x = one_decimal y.
Proof.
  intros E. unfold one_decimal, is_integer.
  assert (E10 : 10 * x == 10 * y) by (rewrite E; reflexivity).
  rewrite (Qfloor_comp _ _ E10).
  apply Qeqb_comp; [exact E10 | reflexivity].
Qed.

(** Rounding to one decimal keeps a number of [[0,100]] in [[0,100]]. *)
Lemma round1_within (x : number) : within_0_100 x -> within_0_100 (round1 x).
Proof.
  intros [H0 H1]. unfold round1, round_half_away.
  destruct (Qlt_le_dec (x * 10) 0) as [Hneg | _];
    [unfold number in *; lra |].
  assert (L : (0 <= Qfloor (x * 10 + 0.5))%Z).
  { apply (Qfloor_resp_le 0). unfold number in *. lra. }
  assert (U : (Qfloor (x * 10 + 0.5) <= 1000)%Z).
  { apply (Qfloor_resp_le _ 1000.5). unfold number in *. lra. }
  rewrite Zle_Qle in L, U.
  set (z := inject_Z (Qfloor (x * 10 + 0.5))) in *.
  change (inject_Z 0) with 0 in L. change (inject_Z 1000) with 1000 in U.
  split.
  - apply Qle_shift_div_l; [reflexivity | lra].
  - apply Qle_shift_div_r; [reflexivity | lra].
Qed.

(** The three cases of [Math.max(0, Math.min(100, r))]. *)
Lemma clamp_cases (r : number) :
  (r <= 0 /\ Math.max 0 (Math.min 100 r) == 0)
  \/ (0 <= r <= 100 /\ Math.max 0 (Math.min 100 r) == r)
  \/ (100 <= r /\ Math.max 0 (Math.min 100 r) == 100).
Proof.
  unfold Math.max, Math.min.
  destruct (Qle_bool 100 r) eqn:E1.
  - apply Qle_bool_iff in E1. right. right. split; [exact E1 |].
    reflexivity.
  - assert (H1 : r < 100).
    { apply Qnot_le_lt. intros H. apply Qle_bool_iff in H. congruence. }
    destruct (Qle_bool 0 r) eqn:E0.
    + apply Qle_bool_iff in E0. right. left.
      split; [split; [exact E0 | apply Qlt_le_weak; exact H1] | reflexivity].
    + assert (H0 : r < 0).
      { apply Qnot_le_lt. intros H. apply Qle_bool_iff in H. congruence. }
      left. split; [apply Qlt_le_weak; exact H0 | reflexivity].
Qed.

Lemma clamp_within (r : number) :
  within_0_100 (Math.max 0 (Math.min 100 r)).
Proof.
  unfold within_0_100.
  destruct (clamp_cases r) as [[H E] | [[[H0 H1] E] | [H E]]];
    rewrite E; unfold number in *; lra.
Qed.

Lemma clamp_id (r : number) :
  0 <= r <= 100 -> Math.max 0 (Math.min 100 r) == r.
Proof.
  intros [H0 H1].
  destruct (clamp_cases r) as [[H E] | [[_ E] | [H E]]]; rewrite E;
    unfold number in *; lra.
Qed.

Lemma clamp_comp (r r' : number) :
  r == r' ->
  Math.max 0 (Math.min 100 r) == Math.max 0 (Math.min 100 r').
Proof.
  intros E.
  destruct (clamp_cases r) as [[H A] | [[[H0 H1] A] | [H A]]];
  destruct (clamp_cases r') as [[H' B] | [[[H0' H1'] B] | [H' B]]];
  rewrite A, B; rewrite E in *; unfold number in *; lra.
Qed.

(** ** Arrays *)

Lemma mapi_from_Forall2 {A B} (R : A -> A -> Prop) (S : B -> B -> Prop)
  (f g : A -> nat -> B) (xs ys : list A) (i : nat) :
  (forall x y k, R x y -> S (f x k) (g y k)) ->
  Forall2 R xs ys -> Forall2 S (mapi_from f i xs) (mapi_from g i ys).
Proof.
  intros Hfg H. revert i.
  induction H as [| x y xs ys Hxy _ IH]; intros i; simpl; constructor; auto.
Qed.

Lemma mapi_from_Forall {A B} (P : B -> Prop) (f : A -> nat -> B)
  (xs : list A) (i : nat) :
  (forall x k, P (f x k)) -> Forall P (mapi_from f i xs).
Proof.
  intros Hf. revert i. induction xs as [| x xs IH]; intros i; simpl;
    constructor; auto.
Qed.

Lemma map_Forall2 {A B} (S : B -> B -> Prop) (P : A -> Prop)
  (f g : A -> B) (xs : list A) :
  (forall x, P x -> S (f x) (g x)) ->
  Forall P xs -> Forall2 S (map f xs) (map g xs).
Proof.
  intros Hfg H. induction H as [| x xs Hx _ IH]; simpl; constructor; auto.
Qed.

(** The sum computed by [reduce] grows with the start value and with every
    summand. *)
Lemma sum_mono (xs ys : list number) (a b : number) :
  a <= b -> Forall2 Qle xs ys ->
  fold_left (fun acc v => acc + v) xs a
  <= fold_left (fun acc v => acc + v) ys b.
Proof.
  intros Hab H. revert a b Hab.
  induction H as [| x y xs ys Hxy _ IH]; intros a b Hab; simpl.
  - exact Hab.
  - apply IH. apply Qplus_le_compat; assumption.
Qed.

Lemma sum_comp (xs ys : list number) (a b : number) :
  a == b -> Forall2 Qeq xs ys ->
  fold_left (fun acc v => acc + v) xs a
  == fold_left (fun acc v => acc + v) ys b.
Proof.
  intros Hab H. revert a b Hab.
  induction H as [| x y xs ys Hxy _ IH]; intros a b Hab; simpl.
  - exact Hab.
  - apply IH. rewrite Hab, Hxy. reflexivity.
Qed.

(** [join] puts the separator between the elements. *)
Lemma join_from_false (sep R : string) (elements : list string) :
  join_from sep false R elements
  = match elements with
    | [] => R
    | _ :: _ => (R ++ sep ++ String.concat sep elements)%string
    end.
Proof.
  revert R. induction elements as [| e rest IH]; intros R; [reflexivity |].
  cbn [join_from]. rewrite IH.
  destruct rest as [| e' rest].
  - cbn [String.concat]. apply append_assoc.
  - remember (e' :: rest) as l eqn:El. cbn [String.concat].
    rewrite El at 2. rewrite !append_assoc. reflexivity.
Qed.

Lemma Array_join_concat (elements : list string) (sep : string) :
  Array_join elements sep = String.concat sep elements.
Proof.
  unfold Array_join. destruct elements as [| e rest]; [reflexivity |].
  cbn [join_from append]. rewrite join_from_false.
  destruct rest; reflexivity.
Qed.

Lemma concat_nonempty (sep : string) (elements : list string) :
  Forall (fun e => e <> EmptyString) elements -> elements <> [] ->
  String.concat sep elements <> EmptyString.
Proof.
  intros H Hne. destruct H as [| e rest He _]; [congruence |].
  cbn [String.concat]. destruct rest; [exact He |].
  destruct e; [congruence | discriminate].
Qed.

(** ** The simulation *)

Ltac unfold_locals :=
  unfold projectedCash, revenueSum, expenseSum, simulatedExpenseTotal,
    revenueSeries, baseSeries, baseRevenue0, rawRisk, fraudComponent,
    inventoryComponent, expenseComponent, healthDelta,
    revenueVsExpenseDelta, riskDelta, supplierDelta, deltaFromBase,
    baseHealth, baseExpense, baseFraud, spec_cash, spec_revenue in *;
  cbn [map fold_left metadata baseResult base_health_score
       base_expense_total fraud_rate_percent] in *.

Lemma baseSeries_nonneg : Forall (fun v => 0 <= v) baseSeries.
Proof.
  unfold baseSeries. cbn [map].
  repeat constructor; apply Qle_bool_iff; reflexivity.
Qed.


Lemma projectedCash_closed (p : SimulationParams) :
  projectedCash p
  == 100000 + 292600 * sales_growth_multiplier p
     - 200000 * expense_growth_multiplier p.
Proof. unfold_locals. ring. Qed.

Lemma rawRisk_closed (p : SimulationParams) :
  rawRisk p
  == 6 * fraud_sensitivity p
     + ((supplier_delay_factor p - 1) * 40
        + (reorder_threshold_multiplier p - 1) * 25)
     + (expense_growth_multiplier p - 1) * 60.
Proof. unfold_locals. ring. Qed.

Lemma riskIndex_within (p : SimulationParams) : within_0_100 (riskIndex p).
Proof. apply clamp_within. Qed.

Lemma newHealth_within (p : SimulationParams) : within_0_100 (newHealth p).
Proof. apply clamp_within. Qed.

Lemma within_comp (x y : number) : x == y -> within_0_100 x -> within_0_100 y.
Proof. intros E [H0 H1]. split; rewrite <- E; assumption. Qed.

(** In exact arithmetic, where no intermediate result overflows, the
    returned risk index and the returned health score lie between 0 and
    100 (bounds included) for every choice of the five multipliers.  In
    binary64 both can be NaN, see [Binary64Facts]. *)
Lemma exact_risk_and_health_within_0_100 (p : SimulationParams) :
  within_0_100 (risk_index (runLocalSimulation p))
  /\ within_0_100 (new_health_score (runLocalSimulation p)).
Proof.
  cbn [risk_index new_health_score runLocalSimulation]. split.
  - apply (within_comp (round1 (riskIndex p)));
      [symmetry; apply parseFloat_toFixed_1 |].
    apply round1_within, riskIndex_within.
  - apply (within_comp (round1 (newHealth p)));
      [symmetry; apply parseFloat_toFixed_1 |].
    apply round1_within, newHealth_within.
Qed.

(** In exact arithmetic the health score, its delta from the base and the
    risk index are returned with one decimal digit (ten times the value is
    an integer), and the projected cash and every value of the revenue
    forecast are integers.  In binary64 each of them can be NaN or an
    infinity, see [Binary64Facts]. *)
Lemma exact_outputs_rounded (p : SimulationParams) :
  one_decimal (new_health_score (runLocalSimulation p)) = true
  /\ one_decimal (delta_from_base (runLocalSimulation p)) = true
  /\ one_decimal (risk_index (runLocalSimulation p)) = true
  /\ is_integer (projected_cash (runLocalSimulation p)) = true
  /\ Forall (fun point => is_integer (value point) = true)
       (revenue_forecast (runLocalSimulation p)).
Proof.
  cbn [new_health_score delta_from_base risk_index projected_cash
       revenue_forecast runLocalSimulation].
  rewrite !(one_decimal_comp _ _ (parseFloat_toFixed_1 _)).
  rewrite !one_decimal_round1.
  repeat split.
  - apply is_integer_inject.
  - unfold revenueForecast, Array_mapi. apply mapi_from_Forall.
    intros v k. cbn [value]. apply is_integer_inject.
Qed.

Lemma revenueSeries_mono (p q : SimulationParams) :
  sales_growth_multiplier p <= sales_growth_multiplier q ->
  Forall2 Qle (revenueSeries p) (revenueSeries q).
Proof.
  intros H. unfold revenueSeries.
  apply (map_Forall2 Qle (fun v => 0 <= v)); [| exact baseSeries_nonneg].
  intros v Hv. rewrite !(Qmult_comm v). apply Qmult_le_compat_r; assumption.
Qed.

Lemma revenueSeries_comp (p q : SimulationParams) :
  sales_growth_multiplier p == sales_growth_multiplier q ->
  Forall2 Qeq (revenueSeries p) (revenueSeries q).
Proof.
  intros H. unfold revenueSeries.
  apply (map_Forall2 Qeq (fun _ => True)).
  - intros v _. rewrite H. reflexivity.
  - apply Forall_forall. trivial.
Qed.

(** C4. When two parameter vectors agree on every lever but the sales
    growth, and the second one has the larger sales growth, every period
    of the second forecast carries the same label and no smaller a value,
    and the second projected cash is no smaller. *)
Theorem sales_growth_monotone (p q : SimulationParams) :
  same_but_sales p q ->
  sales_growth_multiplier p <= sales_growth_multiplier q ->
  Forall2 (fun a b => period a = period b /\ value a <= value b)
    (revenue_forecast (runLocalSimulation p))
    (revenue_forecast (runLocalSimulation q))
  /\ projected_cash (runLocalSimulation p)
     <= projected_cash (runLocalSimulation q).
Proof.
  intros (He & _) Hs.
  cbn [revenue_forecast projected_cash runLocalSimulation]. split.
  - unfold revenueForecast, Array_mapi.
    apply (mapi_from_Forall2 Qle); [| apply revenueSeries_mono; exact Hs].
    intros x y k Hxy. cbn [period value]. split; [reflexivity |].
    rewrite <- Zle_Qle. apply Math_round_mono. exact Hxy.
  - rewrite <- Zle_Qle. apply Math_round_mono.
    rewrite !projectedCash_closed. rewrite He.
    unfold number in *. lra.
Qed.

Lemma revenueForecast_comp (p q : SimulationParams) :
  sales_growth_multiplier p == sales_growth_multiplier q ->
  revenueForecast p = revenueForecast q.
Proof.
  intros Hs. unfold revenueForecast, Array_mapi. generalize 0%nat.
  induction (revenueSeries_comp p q Hs) as [| x y xs ys Hxy _ IH];
    intros i; cbn [mapi_from]; [reflexivity |].
  rewrite (Math_round_comp x y Hxy), IH. reflexivity.
Qed.

(** C9. The fraud, supplier-delay and reorder levers do not reach the
    revenue forecast or the projected cash: two parameter vectors with
    equal sales growth and equal expense growth give the same forecast and
    the same projected cash. *)
Theorem risk_levers_do_not_reach_cash (p q : SimulationParams) :
  sales_growth_multiplier p == sales_growth_multiplier q ->
  expense_growth_multiplier p == expense_growth_multiplier q ->
  revenue_forecast (runLocalSimulation p)
  = revenue_forecast (runLocalSimulation q)
  /\ projected_cash (runLocalSimulation p)
     = projected_cash (runLocalSimulation q).
Proof.
  intros Hs He.
  cbn [revenue_forecast projected_cash runLocalSimulation]. split.
  - apply revenueForecast_comp. exact Hs.
  - f_equal. apply Math_round_comp.
    rewrite !projectedCash_closed, Hs, He. reflexivity.
Qed.


(** C10. The baseline is a constant of the component: whatever the
    parameters, the metadata of the result are health 75, expense 50000
    and fraud rate 10, and the cash projection starts from 100000, to which
    the revenues (292600 times the sales growth) are added and from which
    the expenses (200000 times the expense growth) are taken. *)
Theorem baseline_is_constant (p : SimulationParams) :
  metadata (runLocalSimulation p)
  = {| base_health_score := 75;
       base_expense_total := 50000;
       fraud_rate_percent := 10 |}
  /\ projected_cash (runLocalSimulation p)
     = inject_Z
         (Math.round
            (100000
             + (292600 * sales_growth_multiplier p
                - 200000 * expense_growth_multiplier p))).
Proof.
  split; [reflexivity |].
  cbn [projected_cash runLocalSimulation]. f_equal.
  apply Math_round_comp. rewrite projectedCash_closed. ring.
Qed.

(** ** The explanation *)

Lemma strict_ne_false (x : number) : x == 1 -> strict_ne x 1 = false.
Proof. intros E. unfold strict_ne. rewrite (Qeq_eq_bool _ _ E). reflexivity. Qed.

Lemma strict_ne_comp (x y : number) :
  x == y -> strict_ne x 1 = strict_ne y 1.
Proof.
  intros E. unfold strict_ne. f_equal. apply Qeqb_comp; [exact E | reflexivity].
Qed.

Lemma explanationParts_active (p : SimulationParams) :
  explanationParts p = active_sentences p.
Proof.
  unfold explanationParts, explanationParts3, explanationParts2,
    explanationParts1, explanationParts0, active_sentences, lever_sentences,
    differs, strict_ne, Array_push.
  destruct (negb (Qeq_bool (sales_growth_multiplier p) 1)),
    (negb (Qeq_bool (expense_growth_multiplier p) 1)),
    (negb (Qeq_bool (fraud_sensitivity p) 1)),
    (negb (Qeq_bool (supplier_delay_factor p) 1)),
    (negb (Qeq_bool (reorder_threshold_multiplier p) 1));
    reflexivity.
Qed.

Lemma sentences_nonempty (p : SimulationParams) :
  Forall (fun e => e <> EmptyString) (active_sentences p).
Proof.
  unfold active_sentences. apply Forall_forall. intros e He.
  apply in_map_iff in He. destruct He as ([b s] & <- & Hin).
  apply filter_In in Hin. destruct Hin as [Hin _].
  unfold lever_sentences in Hin. cbn [In snd] in *.
  destruct Hin as [E | [E | [E | [E | []]]]]; inversion E; subst.
  - unfold sales_sentence. destruct (_ >=? _)%Z; discriminate.
  - unfold expense_sentence. destruct (_ >=? _)%Z; discriminate.
  - discriminate.
  - discriminate.
Qed.

Lemma explanation_spec (p : SimulationParams) :
  explanation p = spec_explanation p.
Proof.
  unfold explanation, spec_explanation.
  rewrite Array_join_concat, explanationParts_active.
  pose proof (sentences_nonempty p) as Hall.
  destruct (active_sentences p) as [| e rest] eqn:E; [reflexivity |].
  pose proof (concat_nonempty " " (e :: rest) Hall) as Hne.
  destruct (String.concat " " (e :: rest));
    [exfalso; apply Hne; [discriminate | reflexivity] | reflexivity].
Qed.

(** C6. The explanation is made of the sentences of the levers that differ
    from 1, in the order sales growth, expense growth, fraud sensitivity,
    supply chain (one sentence for the two supply-chain levers), put
    together with single spaces; the fixed fallback sentence stands in when
    no lever differs; so the explanation is never empty. *)
Theorem explanation_follows_levers (p : SimulationParams) :
  explanation_summary (runLocalSimulation p) = spec_explanation p
  /\ explanation_summary (runLocalSimulation p) <> EmptyString.
Proof.
  cbn [explanation_summary runLocalSimulation].
  rewrite explanation_spec. split; [reflexivity |].
  unfold spec_explanation.
  pose proof (sentences_nonempty p) as Hall.
  destruct (active_sentences p) as [| e rest]; [discriminate |].
  apply concat_nonempty; [exact Hall | discriminate].
Qed.

(** ** Scenarios *)

Lemma riskIndex_of_rawRisk (p : SimulationParams) (r : number) :
  rawRisk p == r -> 0 <= r <= 100 -> riskIndex p == r.
Proof.
  intros E H. unfold riskIndex. rewrite (clamp_comp _ _ E).
  apply clamp_id. exact H.
Qed.

Lemma neutral_riskIndex (p : SimulationParams) : neutral p -> riskIndex p == 6.
Proof.
  intros (_ & He & Hf & Hd & Hr).
  apply riskIndex_of_rawRisk.
  - rewrite rawRisk_closed, He, Hf, Hd, Hr. reflexivity.
  - split; apply Qle_bool_iff; reflexivity.
Qed.

Lemma neutral_newHealth (p : SimulationParams) :
  neutral p -> newHealth p == 743 # 9.
Proof.
  intros N. pose proof (neutral_riskIndex p N) as HR.
  destruct N as (Hs & He & Hf & Hd & Hr).
  unfold newHealth. rewrite (clamp_comp _ (743 # 9)).
  - apply clamp_id. split; apply Qle_bool_iff; reflexivity.
  - unfold healthDelta, revenueVsExpenseDelta, riskDelta, supplierDelta,
      baseHealth.
    rewrite HR, Hs, He, Hd. reflexivity.
Qed.

Lemma neutral_explanation (p : SimulationParams) :
  neutral p -> explanation p = fallback_sentence.
Proof.
  intros (Hs & He & Hf & Hd & Hr).
  unfold explanation, explanationParts, explanationParts3,
    explanationParts2, explanationParts1, explanationParts0.
  rewrite !strict_ne_false by assumption. reflexivity.
Qed.

(** C1, as the code has it.  With all five multipliers at 1 the risk is 6,
    not the reference risk 40 the health formula compares it with, so the
    health score moves: the simulation returns the health score 82.6 and
    the delta 7.6; the explanation is the fixed fallback sentence. *)
Theorem neutral_input_result (p : SimulationParams) :
  neutral p ->
  new_health_score (runLocalSimulation p) == 82.6
  /\ delta_from_base (runLocalSimulation p) == 7.6
  /\ explanation_summary (runLocalSimulation p) = fallback_sentence.
Proof.
  intros N. pose proof (neutral_newHealth p N) as HN.
  cbn [new_health_score delta_from_base explanation_summary
       runLocalSimulation].
  rewrite !parseFloat_toFixed_1. repeat split.
  - rewrite (round1_comp _ _ HN). reflexivity.
  - rewrite (round1_comp _ (68 # 9)); [reflexivity |].
    unfold deltaFromBase, baseHealth. rewrite HN. reflexivity.
  - apply neutral_explanation. exact N.
Qed.

Lemma neutral_DEFAULT_PARAMS : neutral DEFAULT_PARAMS.
Proof. repeat split. Qed.

Lemma neutral_input_result_witness :
  neutral DEFAULT_PARAMS
  /\ new_health_score (runLocalSimulation DEFAULT_PARAMS) == 82.6
  /\ delta_from_base (runLocalSimulation DEFAULT_PARAMS) == 7.6
  /\ explanation_summary (runLocalSimulation DEFAULT_PARAMS)
     = fallback_sentence.
Proof.
  split; [repeat split |].
  apply (neutral_input_result DEFAULT_PARAMS). repeat split.
Defined.

(** C1 as stated fails: at the neutral parameters the health score is not
    the base health score and the delta is not 0. *)
Lemma neutral_input_moves_health :
  neutral DEFAULT_PARAMS
  /\ ~ (new_health_score (runLocalSimulation DEFAULT_PARAMS)
        == base_health_score (metadata (runLocalSimulation DEFAULT_PARAMS))
        /\ delta_from_base (runLocalSimulation DEFAULT_PARAMS) == 0
        /\ explanation_summary (runLocalSimulation DEFAULT_PARAMS)
           = fallback_sentence).
Proof.
  split; [repeat split |].
  intros (H & _). vm_compute in H. discriminate H.
Qed.

(** C3. On the constant baseline (health 75, expense 50000, fraud rate 10,
    starting cash 100000) and with all multipliers at 1, the revenue
    forecast is P1: 70000, P2: 72100, P3: 74200, P4: 76300, each value
    being 50000 x 1.4 x (1 + 0.03 i) rounded to an integer, and the risk
    index is 6.0. *)
Theorem neutral_forecast_and_risk (p : SimulationParams) :
  neutral p ->
  revenue_forecast (runLocalSimulation p)
  = [ {| period := "P1"; value := 70000 |};
      {| period := "P2"; value := 72100 |};
      {| period := "P3"; value := 74200 |};
      {| period := "P4"; value := 76300 |} ]
  /\ map value (revenue_forecast (runLocalSimulation p))
     = map (fun i => inject_Z (Math.round (50000 * 1.4 * (1 + 0.03 * i))))
         [0; 1; 2; 3]
  /\ risk_index (runLocalSimulation p) == 6.0.
Proof.
  intros N.
  assert (F : revenue_forecast (runLocalSimulation p)
              = revenue_forecast (runLocalSimulation DEFAULT_PARAMS)).
  { cbn [revenue_forecast runLocalSimulation].
    apply revenueForecast_comp. destruct N as (Hs & _).
    rewrite Hs. reflexivity. }
  rewrite F. repeat split.
  cbn [risk_index runLocalSimulation].
  rewrite parseFloat_toFixed_1, (round1_comp _ _ (neutral_riskIndex p N)).
  reflexivity.
Qed.

Lemma neutral_forecast_and_risk_witness :
  neutral DEFAULT_PARAMS
  /\ revenue_forecast (runLocalSimulation DEFAULT_PARAMS)
     = [ {| period := "P1"; value := 70000 |};
         {| period := "P2"; value := 72100 |};
         {| period := "P3"; value := 74200 |};
         {| period := "P4"; value := 76300 |} ]
  /\ risk_index (runLocalSimulation DEFAULT_PARAMS) == 6.0.
Proof.
  split; [repeat split |].
  destruct (neutral_forecast_and_risk DEFAULT_PARAMS) as (F & _ & R);
    [repeat split |].
  split; [exact F | exact R].
Defined.

(** C7. With the expense growth at 1.3 and every other multiplier at 1 the
    risk index is (1.3 - 1) x 60 = 18 above the risk index of the neutral
    parameters, and the explanation is the sentence on growing expenses and
    the pressure they put on cash and health. *)
Theorem expense_growth_scenario (p : SimulationParams) :
  expense_scenario p ->
  risk_index (runLocalSimulation p)
  - risk_index (runLocalSimulation DEFAULT_PARAMS) == (1.3 - 1) * 60
  /\ (1.3 - 1) * 60 == 18
  /\ explanation_summary (runLocalSimulation p)
     = "Expenses are projected to grow by 30%, creating additional pressure on cash and health."%string.
Proof.
  intros (Hs & He & Hf & Hd & Hr). repeat split.
  - assert (R : riskIndex p == 24).
    { apply riskIndex_of_rawRisk.
      - rewrite rawRisk_closed, He, Hf, Hd, Hr. reflexivity.
      - split; apply Qle_bool_iff; reflexivity. }
    cbn [risk_index runLocalSimulation].
    rewrite !parseFloat_toFixed_1, (round1_comp _ _ R).
    rewrite (round1_comp _ _ (neutral_riskIndex _ neutral_DEFAULT_PARAMS)).
    reflexivity.
  - cbn [explanation_summary runLocalSimulation].
    unfold explanation, explanationParts, explanationParts3,
      explanationParts2, explanationParts1, explanationParts0.
    rewrite (strict_ne_false _ Hs), (strict_ne_false _ Hf),
      (strict_ne_false _ Hd), (strict_ne_false _ Hr).
    rewrite (strict_ne_comp _ _ He).
    rewrite (Math_round_comp _ ((1.3 - 1) * 100)) by (rewrite He; reflexivity).
    reflexivity.
Qed.

Lemma expense_growth_scenario_witness :
  let p := {| sales_growth_multiplier := 1.0;
              expense_growth_multiplier := 1.3;
              fraud_sensitivity := 1.0;
              supplier_delay_factor := 1.0;
              reorder_threshold_multiplier := 1.0 |} in
  expense_scenario p
  /\ risk_index (runLocalSimulation p)
     - risk_index (runLocalSimulation DEFAULT_PARAMS) == 18.
Proof.
  intros p. split; [repeat split |].
  destruct (expense_growth_scenario p) as (R & E & _); [repeat split |].
  rewrite R. exact E.
Defined.

Lemma sales_growth_monotone_witness :
  let p := DEFAULT_PARAMS in
  let q := {| sales_growth_multiplier := 1.2;
              expense_growth_multiplier := 1.0;
              fraud_sensitivity := 1.0;
              supplier_delay_factor := 1.0;
              reorder_threshold_multiplier := 1.0 |} in
  same_but_sales p q
  /\ sales_growth_multiplier p <= sales_growth_multiplier q
  /\ projected_cash (runLocalSimulation p)
     <= projected_cash (runLocalSimulation q).
Proof.
  intros p q.
  assert (A : same_but_sales p q) by (repeat split).
  assert (B : sales_growth_multiplier p <= sales_growth_multiplier q)
    by (apply Qle_bool_iff; reflexivity).
  split; [exact A | split; [exact B |]].
  exact (proj2 (sales_growth_monotone p q A B)).
Defined.

Lemma risk_levers_do_not_reach_cash_witness :
  let p := DEFAULT_PARAMS in
  let q := {| sales_growth_multiplier := 1.0;
              expense_growth_multiplier := 1.0;
              fraud_sensitivity := 1.5;
              supplier_delay_factor := 0.8;
              reorder_threshold_multiplier := 0.5 |} in
  sales_growth_multiplier p == sales_growth_multiplier q
  /\ expense_growth_multiplier p == expense_growth_multiplier q
  /\ projected_cash (runLocalSimulation p)
     = projected_cash (runLocalSimulation q).
Proof.
  intros p q.
  assert (A : sales_growth_multiplier p == sales_growth_multiplier q)
    by reflexivity.
  assert (B : expense_growth_multiplier p == expense_growth_multiplier q)
    by reflexivity.
  split; [exact A | split; [exact B |]].
  exact (proj2 (risk_levers_do_not_reach_cash p q A B)).
Defined.

(** * Further properties of the simulation panel *)

(** ** More on rounding *)

Lemma Math_round_Z (z : Z) : Math.round (inject_Z z) = z.
Proof.
  unfold Math.round.
  pose proof (Qfloor_le (inject_Z z + 0.5)) as L.
  pose proof (Qlt_floor (inject_Z z + 0.5)) as U.
  set (k := Qfloor (inject_Z z + 0.5)) in *.
  rewrite inject_Z_plus in U. change (inject_Z 1) with 1 in U.
  assert (A : inject_Z k < inject_Z (z + 1)).
  { rewrite inject_Z_plus. change (inject_Z 1) with 1. lra. }
  assert (B : inject_Z (z - 1) < inject_Z k).
  { unfold Zminus. rewrite inject_Z_plus. change (inject_Z (- (1))) with (-1).
    lra. }
  rewrite <- Zlt_Qlt in A, B. lia.
Qed.

Lemma Math_round_bounds (x : number) :
  x - 0.5 < inject_Z (Math.round x) /\ inject_Z (Math.round x) <= x + 0.5.
Proof.
  unfold Math.round.
  pose proof (Qfloor_le (x + 0.5)) as L.
  pose proof (Qlt_floor (x + 0.5)) as U.
  rewrite inject_Z_plus in U. change (inject_Z 1) with 1 in U.
  unfold number in *. split; lra.
Qed.

Lemma round_half_away_mono (x y : number) :
  x <= y -> (round_half_away x <= round_half_away y)%Z.
Proof.
  intros H. unfold round_half_away.
  destruct (Qlt_le_dec x 0) as [Hx | Hx], (Qlt_le_dec y 0) as [Hy | Hy].
  - apply Z.opp_le_mono. rewrite !Z.opp_involutive.
    apply Qfloor_resp_le. unfold number in *. lra.
  - assert (A : (0 <= Qfloor (- x + 0.5))%Z)
      by (apply (Qfloor_resp_le 0); unfold number in *; lra).
    assert (B : (0 <= Qfloor (y + 0.5))%Z)
      by (apply (Qfloor_resp_le 0); unfold number in *; lra).
    lia.
  - unfold number in *. lra.
  - apply Qfloor_resp_le. unfold number in *. lra.
Qed.

Lemma round_half_away_Z (z : Z) : round_half_away (inject_Z z) = z.
Proof.
  unfold round_half_away.
  destruct (Qlt_le_dec (inject_Z z) 0) as [H | H].
  - rewrite <- inject_Z_opp. fold (Math.round (inject_Z (- z))).
    rewrite Math_round_Z. lia.
  - apply Math_round_Z.
Qed.

Lemma round1_mono (x y : number) : x <= y -> round1 x <= round1 y.
Proof.
  intros H. unfold round1.
  pose proof (round_half_away_mono (x * 10) (y * 10)) as M.
  assert (H10 : x * 10 <= y * 10) by (unfold number in *; lra).
  specialize (M H10).
  rewrite Zle_Qle in M.
  apply Qmult_le_compat_r; [exact M | discriminate].
Qed.

#[local] Instance round1_Proper : Proper (Qeq ==> Qeq) round1.
Proof. intros x y E. apply round1_comp, E. Qed.

Lemma round1_idempotent (x : number) : round1 (round1 x) == round1 x.
Proof.
  unfold round1 at 1.
  rewrite (round_half_away_comp _ (inject_Z (round_half_away (x * 10)))).
  - rewrite round_half_away_Z. reflexivity.
  - unfold round1. field.
Qed.

Lemma clamp_mono (r r' : number) :
  r <= r' ->
  Math.max 0 (Math.min 100 r) <= Math.max 0 (Math.min 100 r').
Proof.
  intros H.
  destruct (clamp_cases r) as [[A E] | [[[A0 A1] E] | [A E]]];
  destruct (clamp_cases r') as [[B E'] | [[[B0 B1] E'] | [B E']]];
  rewrite E, E'; unfold number in *; lra.
Qed.

(** ** Monotonicity of risk and health *)

Lemma riskIndex_mono (p q : SimulationParams) :
  risk_levers_le p q -> riskIndex p <= riskIndex q.
Proof.
  intros (He & Hf & Hd & Hr). unfold riskIndex. apply clamp_mono.
  rewrite !rawRisk_closed. unfold number in *. lra.
Qed.

Lemma newHealth_mono (p q : SimulationParams) :
  health_levers_le p q -> newHealth p <= newHealth q.
Proof.
  intros (Hs & Hrisk). pose proof (riskIndex_mono q p Hrisk) as HR.
  destruct Hrisk as (He & Hf & Hd & Hr).
  unfold newHealth. apply clamp_mono.
  unfold healthDelta, revenueVsExpenseDelta, riskDelta, supplierDelta,
    baseHealth.
  cbn [metadata baseResult base_health_score].
  unfold Qdiv. change (/ 4.5) with (10 # 45).
  unfold number in *. lra.
Qed.

(** X1. Raising the expense growth, the fraud sensitivity, the supplier
    delay or the reorder threshold (any of them, the others not lowered)
    never lowers the risk index; the sales growth plays no part in it. *)
Theorem risk_index_monotone (p q : SimulationParams) :
  risk_levers_le p q ->
  risk_index (runLocalSimulation p) <= risk_index (runLocalSimulation q).
Proof.
  intros H. cbn [risk_index runLocalSimulation].
  rewrite !parseFloat_toFixed_1. apply round1_mono, riskIndex_mono, H.
Qed.

Lemma risk_index_monotone_witness :
  let p := DEFAULT_PARAMS in
  let q := {| sales_growth_multiplier := 0.8;
              expense_growth_multiplier := 1.1;
              fraud_sensitivity := 1.5;
              supplier_delay_factor := 1.0;
              reorder_threshold_multiplier := 1.2 |} in
  risk_levers_le p q
  /\ risk_index (runLocalSimulation p) <= risk_index (runLocalSimulation q).
Proof.
  intros p q.
  assert (H : risk_levers_le p q)
    by (repeat split; apply Qle_bool_iff; reflexivity).
  split; [exact H | exact (risk_index_monotone p q H)].
Defined.

(** X2. Raising the sales growth, or lowering any of the four other
    levers, never lowers the health score nor its delta from the base. *)
Theorem health_score_monotone (p q : SimulationParams) :
  health_levers_le p q ->
  new_health_score (runLocalSimulation p)
  <= new_health_score (runLocalSimulation q)
  /\ delta_from_base (runLocalSimulation p)
     <= delta_from_base (runLocalSimulation q).
Proof.
  intros H. pose proof (newHealth_mono p q H) as M.
  cbn [new_health_score delta_from_base runLocalSimulation].
  rewrite !parseFloat_toFixed_1. split; apply round1_mono; [exact M |].
  unfold deltaFromBase. unfold number in *. lra.
Qed.

Lemma health_score_monotone_witness :
  let p := {| sales_growth_multiplier := 0.9;
              expense_growth_multiplier := 1.2;
              fraud_sensitivity := 1.0;
              supplier_delay_factor := 1.5;
              reorder_threshold_multiplier := 1.0 |} in
  let q := DEFAULT_PARAMS in
  health_levers_le p q
  /\ new_health_score (runLocalSimulation p)
     <= new_health_score (runLocalSimulation q).
Proof.
  intros p q.
  assert (H : health_levers_le p q)
    by (repeat split; apply Qle_bool_iff; reflexivity).
  split; [exact H | exact (proj1 (health_score_monotone p q H))].
Defined.

(** ** The delta shown next to the health score *)

(** X3. The delta from the base is rounded on its own, its sign split off
    first: it is the rounded health score minus the base health score (75)
    whenever it is not negative, and in every case either that difference
    or one tenth below it; the latter happens, for instance the score 74.3
    comes with the delta -0.8. *)
Theorem delta_against_health_score :
  (forall p,
      let r := runLocalSimulation p in
      (delta_from_base r == new_health_score r - 75
       \/ delta_from_base r == new_health_score r - 75 - 0.1)
      /\ (0 <= delta_from_base r ->
          delta_from_base r == new_health_score r - 75))
  /\ (exists p,
        let r := runLocalSimulation p in
        new_health_score r == 74.3 /\ delta_from_base r == -0.8).
Proof.
  split.
  - intros p r. subst r.
    cbn [new_health_score delta_from_base runLocalSimulation].
    rewrite !parseFloat_toFixed_1.
    destruct (newHealth_within p) as [H0 H100].
    unfold deltaFromBase, baseHealth.
    cbn [metadata baseResult base_health_score].
    set (x := newHealth p) in *.
    unfold round1, round_half_away.
    destruct (Qlt_le_dec (x * 10) 0) as [Hneg | _];
      [unfold number in *; lra |].
    pose proof (Qfloor_le (x * 10 + 0.5)) as L1.
    pose proof (Qlt_floor (x * 10 + 0.5)) as U1.
    rewrite inject_Z_plus in U1. change (inject_Z 1) with 1 in U1.
    set (H := Qfloor (x * 10 + 0.5)) in *.
    destruct (Qlt_le_dec ((x - 75) * 10) 0) as [Hlow | Hhigh].
    + pose proof (Qfloor_le (- ((x - 75) * 10) + 0.5)) as L2.
      pose proof (Qlt_floor (- ((x - 75) * 10) + 0.5)) as U2.
      rewrite inject_Z_plus in U2. change (inject_Z 1) with 1 in U2.
      set (F := Qfloor (- ((x - 75) * 10) + 0.5)) in *.
      assert (A : inject_Z (H + F) <= inject_Z 751).
      { rewrite inject_Z_plus. change (inject_Z 751) with 751.
        unfold number in *. lra. }
      assert (B : inject_Z 749 < inject_Z (H + F)).
      { rewrite inject_Z_plus. change (inject_Z 749) with 749.
        unfold number in *. lra. }
      assert (C : inject_Z H < inject_Z 751).
      { change (inject_Z 751) with 751. unfold number in *. lra. }
      assert (D : inject_Z 0 <= inject_Z F).
      { change (inject_Z 0) with 0.
        apply Qle_trans with (inject_Z (Qfloor 0.5)); [discriminate |].
        rewrite <- Zle_Qle. apply Qfloor_resp_le. unfold number in *. lra. }
      rewrite <- Zle_Qle in A, D. rewrite <- Zlt_Qlt in B, C.
      assert (E : (F = 750 - H \/ F = 751 - H)%Z) by lia.
      split.
      * destruct E as [-> | ->]; [left | right];
          rewrite inject_Z_opp; unfold Zminus;
          rewrite inject_Z_plus, inject_Z_opp; field.
      * intros Hd.
        assert (Hd' : inject_Z (- F) >= 0).
        { unfold Qdiv in Hd. change (/ 10) with (1 # 10) in Hd.
          set (z := inject_Z (- F)) in *. lra. }
        change 0 with (inject_Z 0) in Hd'. rewrite <- Zle_Qle in Hd'.
        assert (F = 0 /\ H = 750)%Z as [-> ->] by lia.
        reflexivity.
    + assert (E : Qfloor ((x - 75) * 10 + 0.5) = (H - 750)%Z).
      { pose proof (Qfloor_le ((x - 75) * 10 + 0.5)) as L2.
        pose proof (Qlt_floor ((x - 75) * 10 + 0.5)) as U2.
        rewrite inject_Z_plus in U2. change (inject_Z 1) with 1 in U2.
        set (G := Qfloor ((x - 75) * 10 + 0.5)) in *.
        assert (A : inject_Z (G + 750) < inject_Z (H + 1)).
        { rewrite !inject_Z_plus. change (inject_Z 750) with 750.
          change (inject_Z 1) with 1. unfold number in *. lra. }
        assert (B : inject_Z H < inject_Z (G + 750 + 1)).
        { rewrite !inject_Z_plus. change (inject_Z 750) with 750.
          change (inject_Z 1) with 1. unfold number in *. lra. }
        rewrite <- Zlt_Qlt in A, B. lia. }
      rewrite E.
      assert (Q : inject_Z (H - 750) / 10 == inject_Z H / 10 - 75).
      { unfold Zminus. rewrite inject_Z_plus, inject_Z_opp. field. }
      split; [left; exact Q | intros _; exact Q].
  - exists {| sales_growth_multiplier := 349 # 648;
              expense_growth_multiplier := 1;
              fraud_sensitivity := 1;
              supplier_delay_factor := 1;
              reorder_threshold_multiplier := 1 |}.
    split; reflexivity.
Qed.

(** ** The texts of the cards *)

(** X4. The health and risk cards print the numbers of a simulation result
    with one decimal without changing them: read back, the texts give
    exactly the health score and the risk index of the result. *)
Theorem card_texts_read_back (p : SimulationParams) :
  let r := activeResult (Some (runLocalSimulation p)) in
  parseFloat (health_text r) == new_health_score r
  /\ parseFloat (risk_text r) == risk_index r.
Proof.
  cbn [activeResult]. unfold health_text, risk_text.
  cbn [new_health_score risk_index runLocalSimulation].
  rewrite !parseFloat_toFixed_1.
  split; apply round1_idempotent.
Qed.

(** ** The forecast and the revenue delta *)

Lemma revenueForecast_explicit (p : SimulationParams) :
  revenueForecast p
  = [ {| period := "P1";
         value := inject_Z (Math.round (50000 * 1.4 * (1 + 0.03 * 0)
                                        * sales_growth_multiplier p)) |};
      {| period := "P2";
         value := inject_Z (Math.round (50000 * 1.4 * (1 + 0.03 * 1)
                                        * sales_growth_multiplier p)) |};
      {| period := "P3";
         value := inject_Z (Math.round (50000 * 1.4 * (1 + 0.03 * 2)
                                        * sales_growth_multiplier p)) |};
      {| period := "P4";
         value := inject_Z (Math.round (50000 * 1.4 * (1 + 0.03 * 3)
                                        * sales_growth_multiplier p)) |} ].
Proof. reflexivity. Qed.

(** X5. Whatever the parameters, the forecast has exactly four points,
    labelled P1, P2, P3, P4 in this order. *)
Theorem forecast_periods (p : SimulationParams) :
  map period (revenue_forecast (runLocalSimulation p))
  = ["P1"; "P2"; "P3"; "P4"]%string.
Proof.
  cbn [revenue_forecast runLocalSimulation].
  rewrite revenueForecast_explicit. reflexivity.
Qed.

(** X6. The revenue delta of the panel is 0 before the first run; after a
    run it lies within 2 of 292600 times the sales growth minus 335000,
    the forecast total of the constant base result.  So it is negative for
    every sales growth up to 1.14, the neutral 1.0 included, and no other
    lever changes it. *)
Theorem revenue_delta_against_base :
  revenueDelta None == 0
  /\ (forall p,
        let d := revenueDelta (Some (runLocalSimulation p)) in
        292600 * sales_growth_multiplier p - 335000 - 2 <= d
        /\ d <= 292600 * sales_growth_multiplier p - 335000 + 2)
  /\ (forall p,
        sales_growth_multiplier p <= 1.14 ->
        revenueDelta (Some (runLocalSimulation p)) < 0)
  /\ (forall p q,
        sales_growth_multiplier p == sales_growth_multiplier q ->
        revenueDelta (Some (runLocalSimulation p))
        = revenueDelta (Some (runLocalSimulation q))).
Proof.
  assert (bounds : forall p,
             let d := revenueDelta (Some (runLocalSimulation p)) in
             292600 * sales_growth_multiplier p - 335000 - 2 <= d
             /\ d <= 292600 * sales_growth_multiplier p - 335000 + 2).
  { intros p. cbn zeta. unfold revenueDelta.
    cbn [revenue_forecast runLocalSimulation baseResult].
    rewrite revenueForecast_explicit. cbn [fold_left value].
    set (s := sales_growth_multiplier p).
    pose proof (Math_round_bounds (50000 * 1.4 * (1 + 0.03 * 0) * s)) as B0.
    pose proof (Math_round_bounds (50000 * 1.4 * (1 + 0.03 * 1) * s)) as B1.
    pose proof (Math_round_bounds (50000 * 1.4 * (1 + 0.03 * 2) * s)) as B2.
    pose proof (Math_round_bounds (50000 * 1.4 * (1 + 0.03 * 3) * s)) as B3.
    unfold number in *. split; lra. }
  split; [reflexivity | split; [exact bounds | split]].
  - intros p Hs. destruct (bounds p) as [_ U]. cbn zeta in U.
    unfold number in *. lra.
  - intros p q Hs. unfold revenueDelta.
    cbn [revenue_forecast runLocalSimulation].
    rewrite (revenueForecast_comp p q Hs). reflexivity.
Qed.

(** ** The wording of the explanation *)

Lemma prefix_append (a b : string) : String.prefix a (a ++ b) = true.
Proof.
  induction a as [| c a IH]; cbn [append String.prefix].
  - destruct b; reflexivity.
  - destruct (ascii_dec c c) as [_ | N]; [exact IH | congruence].
Qed.

(** X7. The sentence on sales speaks of an increase whenever the rounded
    percentage is not negative: a sales growth just under 1, from 0.995
    on, is reported as "increased by 0%", and this sentence always comes
    first. *)
Theorem small_sales_cut_is_worded_as_increase (p : SimulationParams) :
  0.995 <= sales_growth_multiplier p -> sales_growth_multiplier p < 1 ->
  String.prefix
    "Sales growth increased by 0% which lifts projected revenue across the horizon."
    (explanation_summary (runLocalSimulation p)) = true.
Proof.
  intros Hlo Hhi.
  cbn [explanation_summary runLocalSimulation]. rewrite explanation_spec.
  unfold spec_explanation.
  assert (D : differs (sales_growth_multiplier p) = true).
  { unfold differs. apply negb_true_iff.
    destruct (Qeq_bool (sales_growth_multiplier p) 1) eqn:E; [| reflexivity].
    apply Qeq_bool_eq in E. rewrite E in Hhi. discriminate Hhi. }
  assert (R : Math.round ((sales_growth_multiplier p - 1) * 100) = 0%Z).
  { pose proof (Math_round_bounds ((sales_growth_multiplier p - 1) * 100))
      as [L U].
    set (k := Math.round ((sales_growth_multiplier p - 1) * 100)) in *.
    assert (A : inject_Z (-1) < inject_Z k)
      by (change (inject_Z (-1)) with (-1); unfold number in *; lra).
    assert (B : inject_Z k < inject_Z 1)
      by (change (inject_Z 1) with 1; unfold number in *; lra).
    rewrite <- Zlt_Qlt in A, B. lia. }
  assert (A : exists rest,
             active_sentences p = sales_sentence 0 :: rest).
  { unfold active_sentences, lever_sentences. cbn [filter fst].
    rewrite D. cbn [map snd]. rewrite R. eexists. reflexivity. }
  destruct A as [rest ->].
  change (sales_sentence 0)
    with "Sales growth increased by 0% which lifts projected revenue across the horizon."%string.
  destruct rest as [| e rest].
  - cbn [String.concat]. rewrite <- (append_nil_r _) at 2. apply prefix_append.
  - remember (e :: rest) as l eqn:El. cbn [String.concat].
    rewrite El at 1. apply prefix_append.
Qed.

Lemma small_sales_cut_is_worded_as_increase_witness :
  let p := {| sales_growth_multiplier := 0.996;
              expense_growth_multiplier := 1.0;
              fraud_sensitivity := 1.0;
              supplier_delay_factor := 1.0;
              reorder_threshold_multiplier := 1.0 |} in
  explanation_summary (runLocalSimulation p)
  = "Sales growth increased by 0% which lifts projected revenue across the horizon."%string
  /\ String.prefix
       "Sales growth increased by 0% which lifts projected revenue across the horizon."
       (explanation_summary (runLocalSimulation p)) = true.
Proof.
  intros p. split; [reflexivity |].
  apply (small_sales_cut_is_worded_as_increase p).
  - apply Qle_bool_iff. reflexivity.
  - reflexivity.
Defined.

(** ** Sliders and the run button *)

(** X8. [updateParam] writes one parameter and nothing else: the written
    key reads back the written value, every other key reads as before, a
    second write to the same key wins, and writes to different keys
    commute. *)
Theorem updateParam_laws :
  (forall k v p, getParam k (updateParam k v p) = v)
  /\ (forall k k' v p,
        k <> k' -> getParam k' (updateParam k v p) = getParam k' p)
  /\ (forall k v w p,
        updateParam k v (updateParam k w p) = updateParam k v p)
  /\ (forall k k' v w p,
        k <> k' ->
        updateParam k v (updateParam k' w p)
        = updateParam k' w (updateParam k v p)).
Proof.
  repeat split.
  - intros [] v p; reflexivity.
  - intros [] [] v p N; try reflexivity; congruence.
  - intros [] v w p; reflexivity.
  - intros [] [] v w p N; try reflexivity; congruence.
Qed.

Lemma onSliders_keeps_result (moves : list (ParamKey * number))
  (st : PanelState) :
  currentResult (onSliders moves st) = currentResult st
  /\ loading (onSliders moves st) = loading st.
Proof.
  unfold onSliders. revert st.
  induction moves as [| m moves IH]; intros st; [split; reflexivity |].
  cbn [fold_left]. destruct (IH (onSlider (fst m) (snd m) st)) as [-> ->].
  split; reflexivity.
Qed.

Lemma onSliders_keeps_sales_and_expense (moves : list (ParamKey * number))
  (st : PanelState) :
  Forall (fun m => fst m <> SalesGrowth /\ fst m <> ExpenseGrowth) moves ->
  sales_growth_multiplier (params (onSliders moves st))
  = sales_growth_multiplier (params st)
  /\ expense_growth_multiplier (params (onSliders moves st))
     = expense_growth_multiplier (params st).
Proof.
  unfold onSliders. intros H. revert st.
  induction H as [| [k v] moves [Hs He] _ IH]; intros st;
    [split; reflexivity |].
  cbn [fold_left fst snd] in *.
  destruct (IH (onSlider k v st)) as [-> ->].
  destruct k; try congruence; split; reflexivity.
Qed.

(** X9. The result shown by the panel changes on a run only: after any
    sequence of slider moves the panel still shows what it showed before
    (the constant base result before the first run), and the run that
    follows is the simulation of the parameters as the sliders left
    them. *)
Theorem sliders_do_not_run (moves : list (ParamKey * number))
  (st : PanelState) :
  activeResult (currentResult (onSliders moves st))
  = activeResult (currentResult st)
  /\ activeResult (currentResult (handleRun (onSliders moves st)))
     = runLocalSimulation (params (onSliders moves st))
  /\ activeResult (currentResult (onSliders moves initialState))
     = baseResult.
Proof.
  repeat split.
  - destruct (onSliders_keeps_result moves st) as [-> _]. reflexivity.
  - destruct (onSliders_keeps_result moves initialState) as [-> _].
    reflexivity.
Qed.

(** X10. Moving the fraud, supplier-delay and reorder sliders, in any
    number and order, does not change the forecast nor the projected cash
    that the next run reports. *)
Theorem risk_sliders_keep_forecast_and_cash
  (moves : list (ParamKey * number)) (st : PanelState) :
  Forall (fun m => fst m <> SalesGrowth /\ fst m <> ExpenseGrowth) moves ->
  let before := activeResult (currentResult (handleRun st)) in
  let after := activeResult (currentResult (handleRun (onSliders moves st))) in
  revenue_forecast after = revenue_forecast before
  /\ projected_cash after = projected_cash before.
Proof.
  intros H.
  destruct (onSliders_keeps_sales_and_expense moves st H) as [Es Ee].
  cbn [activeResult currentResult handleRun params revenue_forecast
       projected_cash runLocalSimulation].
  split.
  - apply revenueForecast_comp. rewrite Es. reflexivity.
  - f_equal. apply Math_round_comp.
    rewrite !projectedCash_closed, Es, Ee. reflexivity.
Qed.

Lemma risk_sliders_keep_forecast_and_cash_witness :
  let moves := [(FraudSensitivity, 1.5); (SupplierDelay, 0.8);
                (FraudSensitivity, 0.5); (ReorderThreshold, 1.25)] in
  let before := activeResult (currentResult (handleRun initialState)) in
  let after :=
    activeResult (currentResult (handleRun (onSliders moves initialState))) in
  Forall (fun m => fst m <> SalesGrowth /\ fst m <> ExpenseGrowth) moves
  /\ revenue_forecast after = revenue_forecast before
  /\ projected_cash after = projected_cash before.
Proof.
  intros moves before after.
  assert (H : Forall (fun m => fst m <> SalesGrowth /\ fst m <> ExpenseGrowth)
                moves)
    by (repeat constructor; discriminate).
  split; [exact H |].
  exact (risk_sliders_keep_forecast_and_cash moves initialState H).
Defined.

(** ** Rounding errors *)

Lemma round1_error (x : number) : Qabs (round1 x - x) <= 0.05.
Proof.
  apply Qabs_Qle_condition. unfold round1, round_half_away.
  unfold Qdiv. change (/ 10) with (1 # 10).
  destruct (Qlt_le_dec (x * 10) 0) as [H | H].
  - pose proof (Qfloor_le (- (x * 10) + 0.5)) as L.
    pose proof (Qlt_floor (- (x * 10) + 0.5)) as U.
    rewrite inject_Z_plus in U. change (inject_Z 1) with 1 in U.
    rewrite inject_Z_opp.
    set (z := inject_Z (Qfloor (- (x * 10) + 0.5))) in *.
    unfold number in *. split; lra.
  - pose proof (Qfloor_le (x * 10 + 0.5)) as L.
    pose proof (Qlt_floor (x * 10 + 0.5)) as U.
    rewrite inject_Z_plus in U. change (inject_Z 1) with 1 in U.
    set (z := inject_Z (Qfloor (x * 10 + 0.5))) in *.
    unfold number in *. split; lra.
Qed.

Lemma Math_round_error (x : number) :
  Qabs (inject_Z (Math.round x) - x) <= 0.5.
Proof.
  apply Qabs_Qle_condition. destruct (Math_round_bounds x) as [L U].
  unfold number in *. split; lra.
Qed.

(** X11. What the result reports is what the formulas give, up to the
    rounding of the last step: the health score, its delta and the risk
    index are within 0.05 of the unrounded values, the projected cash and
    every forecast value within 0.5. *)
Theorem rounding_errors (p : SimulationParams) :
  let r := runLocalSimulation p in
  Qabs (new_health_score r - newHealth p) <= 0.05
  /\ Qabs (delta_from_base r - deltaFromBase p) <= 0.05
  /\ Qabs (risk_index r - riskIndex p) <= 0.05
  /\ Qabs (projected_cash r - projectedCash p) <= 0.5
  /\ Forall2 (fun point v => Qabs (value point - v) <= 0.5)
       (revenue_forecast r) (revenueSeries p).
Proof.
  cbn [new_health_score delta_from_base risk_index projected_cash
       revenue_forecast runLocalSimulation].
  rewrite !parseFloat_toFixed_1.
  repeat split; try apply round1_error; try apply Math_round_error.
  unfold revenueForecast, Array_mapi. generalize 0%nat.
  induction (revenueSeries p) as [| v vs IH]; intros i; cbn [mapi_from];
    constructor; [apply Math_round_error | apply IH].
Qed.

(** * The panel within its sliders *)

Lemma within_sliders_worst_best (p : SimulationParams) :
  within_sliders p ->
  health_levers_le
    {| sales_growth_multiplier := slider_min SalesGrowth;
       expense_growth_multiplier := slider_max ExpenseGrowth;
       fraud_sensitivity := slider_max FraudSensitivity;
       supplier_delay_factor := slider_max SupplierDelay;
       reorder_threshold_multiplier := slider_max ReorderThreshold |} p
  /\ health_levers_le p
       {| sales_growth_multiplier := slider_max SalesGrowth;
          expense_growth_multiplier := slider_min ExpenseGrowth;
          fraud_sensitivity := slider_min FraudSensitivity;
          supplier_delay_factor := slider_min SupplierDelay;
          reorder_threshold_multiplier := slider_min ReorderThreshold |}.
Proof.
  intros H.
  pose proof (H SalesGrowth) as [S0 S1].
  pose proof (H ExpenseGrowth) as [E0 E1].
  pose proof (H FraudSensitivity) as [F0 F1].
  pose proof (H SupplierDelay) as [D0 D1].
  pose proof (H ReorderThreshold) as [R0 R1].
  cbn [getParam] in *.
  split; repeat split; assumption.
Qed.

(** X12. With every slider within its bounds the clamp of the health score
    is never reached and the upper clamp of the risk index neither: the
    health score stays between 56.7 and 94.9, its delta between -18.3 and
    19.9, the risk index between 0 and 59.5. *)
Theorem within_sliders_health_and_risk (p : SimulationParams) :
  within_sliders p ->
  let r := runLocalSimulation p in
  56.7 <= new_health_score r /\ new_health_score r <= 94.9
  /\ -18.3 <= delta_from_base r /\ delta_from_base r <= 19.9
  /\ 0 <= risk_index r /\ risk_index r <= 59.5.
Proof.
  intros H r. subst r.
  destruct (within_sliders_worst_best p H) as [Hworst Hbest].
  pose proof (newHealth_mono _ _ Hworst) as W.
  pose proof (newHealth_mono _ _ Hbest) as B.
  pose proof (riskIndex_mono _ _ (proj2 Hbest)) as R0.
  pose proof (riskIndex_mono _ _ (proj2 Hworst)) as R1.
  cbn [new_health_score delta_from_base risk_index runLocalSimulation].
  rewrite !parseFloat_toFixed_1.
  assert (DW : newHealth p - baseHealth >= -18.34).
  { eapply Qle_trans; [| apply Qplus_le_compat; [exact W | apply Qle_refl]].
    apply Qle_bool_iff. vm_compute. reflexivity. }
  assert (DB : newHealth p - baseHealth <= 19.89).
  { eapply Qle_trans; [apply Qplus_le_compat; [exact B | apply Qle_refl] |].
    apply Qle_bool_iff. vm_compute. reflexivity. }
  repeat split.
  - eapply Qle_trans; [| apply round1_mono; exact W].
    apply Qle_bool_iff. vm_compute. reflexivity.
  - eapply Qle_trans; [apply round1_mono; exact B |].
    apply Qle_bool_iff. vm_compute. reflexivity.
  - eapply Qle_trans; [| apply round1_mono; exact DW].
    apply Qle_bool_iff. vm_compute. reflexivity.
  - eapply Qle_trans; [apply round1_mono; exact DB |].
    apply Qle_bool_iff. vm_compute. reflexivity.
  - eapply Qle_trans; [| apply round1_mono; exact R0].
    apply Qle_bool_iff. vm_compute. reflexivity.
  - eapply Qle_trans; [apply round1_mono; exact R1 |].
    apply Qle_bool_iff. vm_compute. reflexivity.
Qed.

Lemma within_sliders_health_and_risk_witness :
  within_sliders DEFAULT_PARAMS
  /\ 56.7 <= new_health_score (runLocalSimulation DEFAULT_PARAMS)
  /\ new_health_score (runLocalSimulation DEFAULT_PARAMS) <= 94.9.
Proof.
  assert (H : within_sliders DEFAULT_PARAMS).
  { intros []; split; apply Qle_bool_iff; reflexivity. }
  split; [exact H |].
  destruct (within_sliders_health_and_risk DEFAULT_PARAMS H) as (A & B & _).
  split; [exact A | exact B].
Defined.

(** * The vendors page *)

Module VendorsPageFacts.
Import VendorsPage.

(** ** Sets and indexed maps *)

Lemma existsb_eqb_In (v : string) (set : list string) :
  existsb (String.eqb v) set = true <-> In v set.
Proof.
  rewrite existsb_exists. split.
  - intros (x & Hx & E). apply String.eqb_eq in E. subst x. exact Hx.
  - intros H. exists v. split; [exact H | apply String.eqb_refl].
Qed.

Lemma Set_add_In (set : list string) (v x : string) :
  In x (Set_add set v) <-> In x set \/ x = v.
Proof.
  unfold Set_add. destruct (existsb (String.eqb v) set) eqn:E.
  - apply existsb_eqb_In in E. split; [auto |].
    intros [H | ->]; assumption.
  - rewrite in_app_iff. cbn [In]. split.
    + intros [H | [<- | []]]; auto.
    + intros [H | ->]; auto.
Qed.

Lemma Set_add_NoDup (set : list string) (v : string) :
  NoDup set -> NoDup (Set_add set v).
Proof.
  intros H. unfold Set_add. destruct (existsb (String.eqb v) set) eqn:E.
  - exact H.
  - assert (N : ~ In v set).
    { intros Hin. apply existsb_eqb_In in Hin. congruence. }
    apply NoDup_app; [exact H | repeat constructor; intros [] |].
    intros a Ha [<- | []]. exact (N Ha).
Qed.

Lemma fold_Set_add (values set : list string) :
  NoDup set ->
  NoDup (fold_left Set_add values set)
  /\ forall x, In x (fold_left Set_add values set) <-> In x set \/ In x values.
Proof.
  revert set. induction values as [| v values IH]; intros set H.
  - cbn [fold_left In]. split; [exact H | tauto].
  - cbn [fold_left]. destruct (IH (Set_add set v) (Set_add_NoDup set v H))
      as [N I].
    split; [exact N |]. intros x. rewrite I, Set_add_In. cbn [In].
    split; intros Hx; intuition (subst; auto).
Qed.

Lemma Array_from_Set_spec (values : list string) :
  NoDup (Array_from_Set values)
  /\ forall x, In x (Array_from_Set values) <-> In x values.
Proof.
  destruct (fold_Set_add values [] (NoDup_nil _)) as [N I].
  split; [exact N |]. intros x. unfold Array_from_Set. rewrite I.
  cbn [In]. tauto.
Qed.

Lemma filter_strings_In (vs : list (option string)) (x : string) :
  In x (filter_strings vs) <-> In (Some x) vs /\ x <> EmptyString.
Proof.
  induction vs as [| [v |] vs IH]; cbn [filter_strings In].
  - tauto.
  - destruct (Nat.ltb_spec 0 (String.length v)) as [L | L].
    + cbn [In]. rewrite IH. split.
      * intros [-> | [A B]]; [split; [auto |] | tauto].
        intros ->. inversion L.
      * intros [[[= ->] | A] B]; auto.
    + rewrite IH. split; [tauto |].
      intros [[[= ->] | A] B]; [| tauto].
      destruct x; [congruence | cbn in L; lia].
  - rewrite IH. split; [tauto |]. intros [[A | A] B]; [discriminate | tauto].
Qed.

Lemma uniqueVendors_In (rows : list InventoryRow) (x : string) :
  In x (uniqueVendors rows)
  <-> x <> EmptyString
      /\ exists row, In row rows /\ vendor_key row = Some x.
Proof.
  unfold uniqueVendors.
  rewrite (proj2 (Array_from_Set_spec _)), filter_strings_In, in_map_iff.
  split.
  - intros [(row & E & H) N]. split; [exact N | exists row; auto].
  - intros [N (row & H & E)]. split; [exists row; auto | exact N].
Qed.

Lemma mapi_from_In {A B} (f : A -> nat -> B) (xs : list A) (i : nat) (y : B) :
  In y (mapi_from f i xs) -> exists x k, In x xs /\ y = f x k.
Proof.
  revert i. induction xs as [| x xs IH]; intros i; cbn [mapi_from In].
  - intros [].
  - intros [<- | H]; [exists x, i; auto |].
    destruct (IH _ H) as (x' & k & Hx & E). exists x', k. auto.
Qed.

Lemma mapi_from_map {A B C} (g : B -> C) (f : A -> nat -> B) (h : A -> C)
  (xs : list A) (i : nat) :
  (forall x k, g (f x k) = h x) ->
  map g (mapi_from f i xs) = map h xs.
Proof.
  intros H. revert i. induction xs as [| x xs IH]; intros i;
    cbn [mapi_from map]; [reflexivity |].
  rewrite H, IH. reflexivity.
Qed.

Lemma mapi_from_index {A B C} (g : B -> C) (f : A -> nat -> B) (h : nat -> C)
  (xs : list A) (i : nat) :
  (forall x k, g (f x k) = h k) ->
  map g (mapi_from f i xs) = map h (seq i (List.length xs)).
Proof.
  intros H. revert i. induction xs as [| x xs IH]; intros i;
    cbn [mapi_from map seq List.length]; [reflexivity |].
  rewrite H, IH. reflexivity.
Qed.

Lemma mapi_from_ext_in {A B} (f g : A -> nat -> B) (xs : list A) (i : nat) :
  (forall x k, In x xs -> f x k = g x k) ->
  mapi_from f i xs = mapi_from g i xs.
Proof.
  revert i. induction xs as [| x xs IH]; intros i H; cbn [mapi_from];
    [reflexivity |].
  rewrite (H x i (or_introl eq_refl)), IH; [reflexivity |].
  intros y k Hy. apply H. right. exact Hy.
Qed.

(** ** Names and identifiers *)

(** X13. The page lists every vendor once: the names are the distinct
    non-empty trimmed vendor fields of the rows (a name is listed exactly
    when some row carries it), and the identifiers are 1, 2, 3, ... in the
    order of the list. *)
Theorem vendors_are_distinct_and_numbered (rows : list InventoryRow) :
  NoDup (map name (computed rows))
  /\ (forall x,
        In x (map name (computed rows))
        <-> x <> EmptyString
            /\ exists row, In row rows /\ vendor_key row = Some x)
  /\ map id (computed rows)
     = map (fun k => inject_Z (Z.of_nat k + 1))
         (seq 0 (List.length (computed rows))).
Proof.
  assert (N : map name (computed rows) = uniqueVendors rows).
  { unfold computed, Array_mapi.
    rewrite (mapi_from_map name _ (fun x => x)) by reflexivity.
    apply map_id. }
  assert (L : List.length (computed rows) = List.length (uniqueVendors rows)).
  { rewrite <- N. symmetry. apply length_map. }
  rewrite N, L. split; [| split].
  - apply Array_from_Set_spec.
  - apply uniqueVendors_In.
  - unfold computed, Array_mapi. apply mapi_from_index. reflexivity.
Qed.

(** ** Ratings *)

Lemma clamp_1_5_cases (r : number) :
  (r <= 1 /\ Math.max 1 (Math.min 5 r) == 1)
  \/ (1 <= r <= 5 /\ Math.max 1 (Math.min 5 r) == r)
  \/ (5 <= r /\ Math.max 1 (Math.min 5 r) == 5).
Proof.
  unfold Math.max, Math.min.
  destruct (Qle_bool 5 r) eqn:E5.
  - apply Qle_bool_iff in E5. right. right. split; [exact E5 | reflexivity].
  - assert (H5 : r < 5).
    { apply Qnot_le_lt. intros H. apply Qle_bool_iff in H. congruence. }
    destruct (Qle_bool 1 r) eqn:E1.
    + apply Qle_bool_iff in E1. right. left.
      split; [split; [exact E1 | apply Qlt_le_weak; exact H5] | reflexivity].
    + assert (H1 : r < 1).
      { apply Qnot_le_lt. intros H. apply Qle_bool_iff in H. congruence. }
      left. split; [apply Qlt_le_weak; exact H1 | reflexivity].
Qed.


(** The rating before it is rounded and clamped. *)
Lemma rating_1_to_5_eq (n : nat) (avg : number) :
  rating_1_to_5 n avg
  == Math.max 1
       (Math.min 5
          (round1 (3 + inject_Z (Z.of_nat n) * 0.2
                   - (if gt avg 200 then 0.3 else 0)
                   + (if lt avg 100 then 0.5 else 0)))).
Proof.
  unfold rating_1_to_5, Number_of_string.
  destruct (clamp_1_5_cases
              (parseFloat
                 (toFixed (3 + inject_Z (Z.of_nat n) * 0.2
                           - (if gt avg 200 then 0.3 else 0)
                           + (if lt avg 100 then 0.5 else 0)) 1)))
    as [[A E] | [[[A0 A1] E] | [A E]]];
  destruct (clamp_1_5_cases
              (round1 (3 + inject_Z (Z.of_nat n) * 0.2
                       - (if gt avg 200 then 0.3 else 0)
                       + (if lt avg 100 then 0.5 else 0))))
    as [[B E'] | [[[B0 B1] E'] | [B E']]];
  rewrite E, E'; rewrite parseFloat_toFixed_1 in *;
  unfold number in *; lra.
Qed.

Lemma gt_lt_exclusive (avg : number) :
  gt avg 200 = true -> lt avg 100 = false.
Proof.
  unfold gt, lt. rewrite negb_true_iff, negb_false_iff.
  intros H. apply Qle_bool_iff.
  destruct (Qlt_le_dec 200 avg) as [L | L];
    [unfold number in *; lra |].
  apply Qle_bool_iff in L. congruence.
Qed.

Lemma of_nat_Q_le (n m : nat) :
  (n <= m)%nat -> inject_Z (Z.of_nat n) <= inject_Z (Z.of_nat m).
Proof. intros H. rewrite <- Zle_Qle. lia. Qed.

Lemma rating_1_to_5_bounds (n : nat) (avg : number) :
  (1 <= n)%nat -> 2.9 <= rating_1_to_5 n avg /\ rating_1_to_5 n avg <= 5.
Proof.
  intros Hn. rewrite rating_1_to_5_eq.
  pose proof (of_nat_Q_le 1 n Hn) as Q1. change (inject_Z (Z.of_nat 1)) with 1 in Q1.
  set (raw := 3 + inject_Z (Z.of_nat n) * 0.2
              - (if gt avg 200 then 0.3 else 0)
              + (if lt avg 100 then 0.5 else 0)).
  assert (R : 2.9 <= round1 raw).
  { change 2.9 with (round1 2.9) at 1. apply round1_mono. unfold raw.
    destruct (gt avg 200) eqn:G.
    - rewrite (gt_lt_exclusive avg G). unfold number in *. lra.
    - destruct (lt avg 100); unfold number in *; lra. }
  destruct (clamp_1_5_cases (round1 raw)) as [[A E] | [[[A0 A1] E] | [A E]]];
    rewrite E; unfold number in *; split; lra.
Qed.

Lemma rating_1_to_5_saturates (n : nat) (avg : number) :
  (12 <= n)%nat -> rating_1_to_5 n avg == 5.
Proof.
  intros Hn. rewrite rating_1_to_5_eq.
  pose proof (of_nat_Q_le 12 n Hn) as Q1.
  change (inject_Z (Z.of_nat 12)) with 12 in Q1.
  set (raw := 3 + inject_Z (Z.of_nat n) * 0.2
              - (if gt avg 200 then 0.3 else 0)
              + (if lt avg 100 then 0.5 else 0)).
  assert (R : 5.1 <= round1 raw).
  { change 5.1 with (round1 5.1) at 1. apply round1_mono. unfold raw.
    destruct (gt avg 200), (lt avg 100); unfold number in *; lra. }
  destruct (clamp_1_5_cases (round1 raw)) as [[A E] | [[[A0 A1] E] | [A E]]];
    rewrite E; unfold number in *; lra.
Qed.


(** What the page computes for one listed vendor. *)
Lemma computed_In (rows : list InventoryRow) (v : Vendor) :
  In v (computed rows) ->
  In (name v) (uniqueVendors rows)
  /\ rating v
     = inject_Z
         (Math.round
            (rating_1_to_5 (List.length (vendorItems rows (name v)))
               (avgQuantity (vendorItems rows (name v))) * 20)).
Proof.
  unfold computed, Array_mapi. intros H.
  apply mapi_from_In in H. destruct H as (x & k & Hx & ->).
  cbn [name rating]. split; [exact Hx | reflexivity].
Qed.

Lemma listed_vendor_has_items (rows : list InventoryRow) (x : string) :
  In x (uniqueVendors rows) ->
  (1 <= List.length (vendorItems rows x))%nat.
Proof.
  intros H. apply uniqueVendors_In in H. destruct H as [_ (row & Hrow & E)].
  assert (I : In row (vendorItems rows x)).
  { unfold vendorItems. apply filter_In. split; [exact Hrow |].
    unfold is_item_of. rewrite E. apply String.eqb_refl. }
  destruct (vendorItems rows x); [destruct I | cbn; lia].
Qed.

Lemma rating_1_to_5_tenths (n : nat) (avg : number) :
  exists k : Z, rating_1_to_5 n avg == inject_Z k / 10.
Proof.
  set (raw := 3 + inject_Z (Z.of_nat n) * 0.2
              - (if gt avg 200 then 0.3 else 0)
              + (if lt avg 100 then 0.5 else 0)).
  pose proof (rating_1_to_5_eq n avg) as E. fold raw in E.
  destruct (clamp_1_5_cases (round1 raw)) as [[_ C] | [[_ C] | [_ C]]];
    rewrite C in E.
  - exists 10%Z. rewrite E. reflexivity.
  - exists (round_half_away (raw * 10)). rewrite E. reflexivity.
  - exists 50%Z. rewrite E. reflexivity.
Qed.

(** X14. Every listed vendor has at least one inventory row, so the guard
    on an empty item list never takes its 0 branch, and every rating is an
    even whole number between 58 and 100. *)
Theorem ratings_between_58_and_100 (rows : list InventoryRow) :
  Forall
    (fun v =>
       (1 <= List.length (vendorItems rows (name v)))%nat
       /\ exists n : Z, rating v = inject_Z (2 * n) /\ (29 <= n <= 50)%Z)
    (computed rows).
Proof.
  apply Forall_forall. intros v Hv.
  destruct (computed_In rows v Hv) as [Hname ->].
  pose proof (listed_vendor_has_items rows _ Hname) as Hlen.
  split; [exact Hlen |].
  destruct (rating_1_to_5_bounds _ (avgQuantity (vendorItems rows (name v)))
              Hlen) as [L U].
  destruct (rating_1_to_5_tenths
              (List.length (vendorItems rows (name v)))
              (avgQuantity (vendorItems rows (name v)))) as [k E].
  rewrite E in L, U. exists k. split.
  - f_equal. rewrite <- (Math_round_Z (2 * k)). apply Math_round_comp.
    rewrite E, inject_Z_mult. change (inject_Z 2) with 2. field.
  - assert (A : inject_Z 29 <= inject_Z k).
    { change (inject_Z 29) with 29. unfold Qdiv in L.
      change (/ 10) with (1 # 10) in L. unfold number in *. lra. }
    assert (B : inject_Z k <= inject_Z 50).
    { change (inject_Z 50) with 50. unfold Qdiv in U.
      change (/ 10) with (1 # 10) in U. unfold number in *. lra. }
    rewrite <- Zle_Qle in A, B. lia.
Qed.

(** X15. A vendor with twelve or more inventory rows is rated 100,
    whatever the quantities. *)
Theorem twelve_rows_give_full_rating (rows : list InventoryRow) (v : Vendor) :
  In v (computed rows) ->
  (12 <= List.length (vendorItems rows (name v)))%nat ->
  rating v = 100.
Proof.
  intros Hv Hlen. destruct (computed_In rows v Hv) as [_ ->].
  change 100 with (inject_Z 100). f_equal.
  rewrite <- (Math_round_Z 100). apply Math_round_comp.
  rewrite (rating_1_to_5_saturates _ _ Hlen). reflexivity.
Qed.


Lemma twelve_rows_give_full_rating_witness :
  let rows := repeat {| vendor := Some " Acme"%string; quantity := Some 500 |} 12 in
  let v := {| id := 1; name := "Acme"; rating := 100 |} in
  In v (computed rows)
  /\ (12 <= List.length (vendorItems rows (name v)))%nat
  /\ rating v = 100.
Proof.
  intros rows v.
  assert (E : computed rows = [v]) by (vm_compute; reflexivity).
  assert (A : In v (computed rows)) by (rewrite E; left; reflexivity).
  assert (B : (12 <= List.length (vendorItems rows (name v)))%nat)
    by (apply Nat.leb_le; vm_compute; reflexivity).
  split; [exact A | split; [exact B |]].
  exact (twelve_rows_give_full_rating rows v A B).
Defined.


(** ** Rows without a vendor *)

Lemma filter_strings_has_vendor (rows : list InventoryRow) :
  filter_strings (map vendor_key (filter has_vendor rows))
  = filter_strings (map vendor_key rows).
Proof.
  induction rows as [| row rows IH]; [reflexivity |].
  cbn [filter map filter_strings]. unfold has_vendor at 1.
  destruct (vendor_key row) as [v |] eqn:E.
  - destruct (0 <? String.length v)%nat eqn:L.
    + cbn [map filter_strings]. rewrite E, L, IH. reflexivity.
    + exact IH.
  - exact IH.
Qed.

Lemma vendorItems_has_vendor (rows : list InventoryRow) (x : string) :
  x <> EmptyString ->
  vendorItems (filter has_vendor rows) x = vendorItems rows x.
Proof.
  intros N. unfold vendorItems.
  induction rows as [| row rows IH]; [reflexivity |].
  cbn [filter]. unfold has_vendor at 1, is_item_of at 2.
  destruct (vendor_key row) as [v |] eqn:E.
  - destruct (0 <? String.length v)%nat eqn:L.
    + cbn [filter]. unfold is_item_of at 1. rewrite E, IH. reflexivity.
    + destruct (String.eqb_spec v x) as [-> | _]; [| exact IH].
      destruct x; [congruence | discriminate L].
  - exact IH.
Qed.

(** X17. Rows whose vendor field is missing or blank play no part: the
    vendor list computed from all rows is the one computed from the rows
    that carry a vendor. *)
Theorem rows_without_vendor_are_ignored (rows : list InventoryRow) :
  computed rows = computed (filter has_vendor rows).
Proof.
  unfold computed, uniqueVendors, Array_mapi.
  rewrite filter_strings_has_vendor.
  apply mapi_from_ext_in. intros x k Hx.
  assert (N : x <> EmptyString).
  { apply (proj1 (proj2 (Array_from_Set_spec _) x)) in Hx.
    apply (proj1 (filter_strings_In _ x)) in Hx. tauto. }
  rewrite (vendorItems_has_vendor rows x N). reflexivity.
Qed.

(** ** Trimmed names *)

Lemma trimStart_clean (s : string) : starts_clean (trimStart s).
Proof.
  induction s as [| c s IH]; cbn [trimStart]; [exact I |].
  destruct (is_white_space c) eqn:E; [exact IH | exact E].
Qed.

Lemma trimStart_of_clean (s : string) : starts_clean s -> trimStart s = s.
Proof.
  destruct s as [| c s]; cbn [starts_clean trimStart]; [reflexivity |].
  intros ->. reflexivity.
Qed.

Lemma trimEnd_clean (s : string) : starts_clean s -> starts_clean (trimEnd s).
Proof.
  destruct s as [| c s]; cbn [starts_clean trimEnd]; [trivial |].
  intros E. rewrite E. destruct (trimEnd s); exact E.
Qed.

Lemma trimEnd_idempotent (s : string) : trimEnd (trimEnd s) = trimEnd s.
Proof.
  induction s as [| c s IH]; [reflexivity |].
  cbn [trimEnd]. destruct (trimEnd s) as [| d kept] eqn:E.
  - destruct (is_white_space c) eqn:W; [reflexivity |].
    cbn [trimEnd]. rewrite W. reflexivity.
  - remember (String d kept) as t. cbn [trimEnd]. rewrite IH.
    subst t. reflexivity.
Qed.

Lemma trim_idempotent (s : string) : trim (trim s) = trim s.
Proof.
  unfold trim.
  rewrite (trimStart_of_clean (trimEnd (trimStart s)))
    by apply trimEnd_clean, trimStart_clean.
  apply trimEnd_idempotent.
Qed.

(** X18. Trimming is idempotent, and every listed name is trimmed and not
    empty: it has no white space at either end. *)
Theorem names_are_trimmed (rows : list InventoryRow) :
  (forall s, trim (trim s) = trim s)
  /\ Forall (fun v => trim (name v) = name v /\ name v <> EmptyString)
       (computed rows).
Proof.
  split; [exact trim_idempotent |].
  apply Forall_forall. intros v Hv.
  destruct (computed_In rows v Hv) as [Hname _].
  apply uniqueVendors_In in Hname. destruct Hname as [N (row & _ & E)].
  split; [| exact N].
  unfold vendor_key in E. destruct (vendor row) as [raw |]; [| discriminate].
  cbn [option_map] in E. injection E as <-. apply trim_idempotent.
Qed.

(** ** The order of the rows *)

(** X19. Rearranging the rows keeps the vendors that are listed: the names
    are the same, up to their order.  (The ratings need not stay, see
    [VendorsPage64Facts].) *)
Theorem row_order_keeps_vendor_names (rows rows' : list InventoryRow) :
  Permutation rows rows' ->
  Permutation (map name (computed rows)) (map name (computed rows')).
Proof.
  intros P.
  assert (N : forall rs, map name (computed rs) = uniqueVendors rs).
  { intros rs. unfold computed, Array_mapi.
    rewrite (mapi_from_map name _ (fun x => x)) by reflexivity.
    apply map_id. }
  rewrite !N. apply NoDup_Permutation.
  - apply Array_from_Set_spec.
  - apply Array_from_Set_spec.
  - intros x. rewrite !uniqueVendors_In.
    split; intros [Hx (row & Hrow & E)];
      (split; [exact Hx | exists row; split; [| exact E]]).
    + exact (Permutation_in _ P Hrow).
    + exact (Permutation_in _ (Permutation_sym P) Hrow).
Qed.

Lemma row_order_keeps_vendor_names_witness :
  let r1 := {| vendor := Some "Acme"%string; quantity := Some 50 |} in
  let r2 := {| vendor := Some "Bolt"%string; quantity := Some 250 |} in
  Permutation [r1; r2] [r2; r1]
  /\ Permutation (map name (computed [r1; r2]))
       (map name (computed [r2; r1])).
Proof.
  intros r1 r2.
  assert (P : Permutation [r1; r2] [r2; r1]) by apply perm_swap.
  split; [exact P |].
  exact (row_order_keeps_vendor_names [r1; r2] [r2; r1] P).
Defined.
End VendorsPageFacts.

(** * The products page *)

Module ProductsPageFacts.
Import ProductsPage.

(** ** Sorting *)

Lemma sort_insert_perm {A} (cmp : A -> A -> number) (x : A) (l : list A) :
  Permutation (x :: l) (sort_insert cmp x l).
Proof.
  induction l as [| y l IH]; cbn [sort_insert]; [reflexivity |].
  destruct (Qle_bool (cmp x y) 0); [reflexivity |].
  rewrite perm_swap. constructor. exact IH.
Qed.

Lemma Array_sort_perm {A} (cmp : A -> A -> number) (l : list A) :
  Permutation l (Array_sort cmp l).
Proof.
  unfold Array_sort. induction l as [| x l IH]; cbn [fold_right];
    [constructor |].
  rewrite <- sort_insert_perm. constructor. exact IH.
Qed.

Lemma compareFn_in_order (o : SortOrder) (a b : Product) :
  Qle_bool (compareFn o a b) 0 = true <-> in_order o a b.
Proof.
  rewrite Qle_bool_iff. destruct o; cbn [compareFn in_order];
    split; intros H; unfold number in *; lra.
Qed.

Lemma in_order_total (o : SortOrder) (a b : Product) :
  Qle_bool (compareFn o a b) 0 = false -> in_order o b a.
Proof.
  intros H.
  assert (N : ~ compareFn o a b <= 0)
    by (intros L; apply Qle_bool_iff in L; congruence).
  apply Qnot_le_lt in N.
  destruct o; cbn [compareFn in_order] in *; unfold number in *; lra.
Qed.

Lemma in_order_trans (o : SortOrder) (a b c : Product) :
  in_order o a b -> in_order o b c -> in_order o a c.
Proof.
  destruct o; cbn [in_order]; intros H1 H2; unfold number in *; lra.
Qed.

Lemma sort_insert_sorted (o : SortOrder) (x : Product) (l : list Product) :
  StronglySorted (in_order o) l ->
  StronglySorted (in_order o) (sort_insert (compareFn o) x l).
Proof.
  induction 1 as [| y l Hl IH Hy]; cbn [sort_insert].
  - repeat constructor.
  - destruct (Qle_bool (compareFn o x y) 0) eqn:E.
    + apply compareFn_in_order in E.
      constructor; [constructor; assumption |].
      constructor; [exact E |].
      apply Forall_forall. intros z Hz.
      apply (in_order_trans o x y z E).
      rewrite Forall_forall in Hy. apply Hy, Hz.
    + apply in_order_total in E.
      constructor; [exact IH |].
      apply Forall_forall. intros z Hz.
      apply (Permutation_in _ (Permutation_sym (sort_insert_perm _ x l))) in Hz.
      destruct Hz as [<- | Hz]; [exact E |].
      rewrite Forall_forall in Hy. apply Hy, Hz.
Qed.

Lemma sort_insert_stable (o : SortOrder) (t : number) (x : Product)
  (l : list Product) :
  filter (sold t) (sort_insert (compareFn o) x l) = filter (sold t) (x :: l).
Proof.
  induction l as [| y l IH]; cbn [sort_insert]; [reflexivity |].
  destruct (Qle_bool (compareFn o x y) 0) eqn:E; [reflexivity |].
  cbn [filter] in *. rewrite IH.
  destruct (sold t x) eqn:Sx, (sold t y) eqn:Sy; try reflexivity.
  exfalso. unfold sold in *.
  apply Qeq_bool_eq in Sx, Sy.
  assert (L : compareFn o x y <= 0).
  { destruct o; cbn [compareFn]; rewrite Sx, Sy; unfold number in *; lra. }
  apply Qle_bool_iff in L. congruence.
Qed.

Lemma sorted_is_kept (o : SortOrder) (l : list Product) :
  StronglySorted (in_order o) l -> Array_sort (compareFn o) l = l.
Proof.
  unfold Array_sort. induction 1 as [| x l Hl IH Hx]; cbn [fold_right];
    [reflexivity |].
  rewrite IH. destruct l as [| y l]; [reflexivity |].
  cbn [sort_insert]. inversion Hx as [| ? ? Hxy _]; subst.
  apply compareFn_in_order in Hxy. rewrite Hxy. reflexivity.
Qed.

Lemma sortedProducts_sorted (products : list Product) (o : SortOrder) :
  StronglySorted (in_order o) (sortedProducts products o).
Proof.
  unfold sortedProducts, Array_sort.
  induction products as [| x l IH]; cbn [fold_right]; [constructor |].
  apply sort_insert_sorted, IH.
Qed.

(** X20. The sorted list shows the products that were loaded, each as
    often as it was loaded, with the totals sold going down for [highest]
    and up for [lowest]. *)
Theorem sortedProducts_sorted_permutation (products : list Product)
  (o : SortOrder) :
  Permutation products (sortedProducts products o)
  /\ StronglySorted (in_order o) (sortedProducts products o).
Proof.
  split; [apply Array_sort_perm | apply sortedProducts_sorted].
Qed.

(** X21. The sort is stable: the products with one and the same total
    sold follow each other in the sorted list as they do in the loaded
    one, in both orders. *)
Theorem sortedProducts_stable (products : list Product) (o : SortOrder)
  (t : number) :
  filter (sold t) (sortedProducts products o) = filter (sold t) products.
Proof.
  unfold sortedProducts, Array_sort.
  induction products as [| x l IH]; cbn [fold_right]; [reflexivity |].
  rewrite sort_insert_stable. cbn [filter]. rewrite IH. reflexivity.
Qed.

(** X22. Sorting again changes nothing: a list that is already in the
    order asked for is returned as it is. *)
Theorem sortedProducts_idempotent (products : list Product) (o : SortOrder) :
  sortedProducts (sortedProducts products o) o = sortedProducts products o.
Proof.
  unfold sortedProducts at 1. apply sorted_is_kept, sortedProducts_sorted.
Qed.

(** ** The two orders *)

Lemma in_order_flip (a b : Product) :
  in_order highest a b <-> in_order lowest b a.
Proof. cbn [in_order]. tauto. Qed.

Lemma StronglySorted_app {A} (R : A -> A -> Prop) (l1 l2 : list A) :
  StronglySorted R l1 -> StronglySorted R l2 ->
  (forall a b, In a l1 -> In b l2 -> R a b) ->
  StronglySorted R (l1 ++ l2).
Proof.
  intros H1 H2 H. induction H1 as [| x l1 Hl IH Hx]; cbn [app]; [exact H2 |].
  constructor.
  - apply IH. intros a b Ha Hb. apply H; [right; exact Ha | exact Hb].
  - apply Forall_app. split; [exact Hx |].
    apply Forall_forall. intros b Hb. apply H; [left; reflexivity | exact Hb].
Qed.

Lemma StronglySorted_rev (l : list Product) :
  StronglySorted (in_order highest) l ->
  StronglySorted (in_order lowest) (rev l).
Proof.
  induction 1 as [| x l Hl IH Hx]; cbn [rev]; [constructor |].
  apply StronglySorted_app; [exact IH | repeat constructor |].
  intros a b Ha [<- | []]. apply in_order_flip.
  apply in_rev in Ha. rewrite Forall_forall in Hx. apply Hx, Ha.
Qed.

Lemma sorted_perm_unique (o : SortOrder) (l1 l2 : list Product) :
  (forall a b, In a l1 -> In b l1 ->
               total_sold a == total_sold b -> a = b) ->
  StronglySorted (in_order o) l1 -> StronglySorted (in_order o) l2 ->
  Permutation l1 l2 -> l1 = l2.
Proof.
  intros D S1. revert l2.
  induction S1 as [| a l1 Hl IH Ha]; intros l2 S2 P.
  - apply Permutation_nil in P. congruence.
  - destruct l2 as [| b l2].
    { apply Permutation_sym, Permutation_nil in P. discriminate. }
    inversion S2 as [| ? ? Hl2 Hb]; subst.
    assert (E : a = b).
    { assert (Ia : In a (b :: l2))
        by (apply (Permutation_in _ P); left; reflexivity).
      assert (Ib : In b (a :: l1))
        by (apply (Permutation_in _ (Permutation_sym P)); left; reflexivity).
      destruct Ia as [-> | Ia]; [reflexivity |].
      destruct Ib as [-> | Ib]; [reflexivity |].
      rewrite Forall_forall in Ha, Hb.
      pose proof (Ha b Ib) as Hab. pose proof (Hb a Ia) as Hba.
      apply D; [left; reflexivity | right; exact Ib |].
      destruct o; cbn [in_order] in *; unfold number in *; lra. }
    subst b. f_equal. apply IH.
    + intros x y Hx Hy. apply D; right; assumption.
    + exact Hl2.
    + apply (Permutation_cons_inv P).
Qed.

(** X23. Switching between [highest] and [lowest] reverses the list when
    no two of the products sold the same total.  With equal totals it need
    not: such products keep their loaded order in both lists. *)
Theorem switching_order_reverses :
  (forall products,
      (forall a b, In a products -> In b products ->
                   total_sold a == total_sold b -> a = b) ->
      sortedProducts products lowest = rev (sortedProducts products highest))
  /\ (exists products,
        sortedProducts products lowest
        <> rev (sortedProducts products highest)).
Proof.
  split.
  - intros products D. symmetry.
    pose proof (Array_sort_perm (compareFn highest) products) as Ph.
    pose proof (Array_sort_perm (compareFn lowest) products) as Pl.
    apply (sorted_perm_unique lowest).
    + intros a b Ha Hb. apply in_rev in Ha, Hb.
      apply D; eapply Permutation_in;
        try (apply Permutation_sym; exact Ph); assumption.
    + apply StronglySorted_rev, sortedProducts_sorted.
    + apply sortedProducts_sorted.
    + rewrite <- Permutation_rev. unfold sortedProducts.
      rewrite <- Ph. exact Pl.
  - exists [ {| id := 1; name := "a"; demand := 0; available_quantity := 0;
                total_sold := 5 |};
             {| id := 2; name := "b"; demand := 0; available_quantity := 0;
                total_sold := 5 |} ].
    vm_compute. discriminate.
Qed.
End ProductsPageFacts.

(** * The revenue intelligence module *)

Module RevenueIntelligenceFacts.
Import RevenueIntelligence.

(** X24. The colours follow the numbers: a higher unified risk index never
    gets a less alarming colour, a higher sustainability score never a
    more alarming one.  Before the data is there both numbers count as 0,
    which paints the risk green and the sustainability red. *)
Theorem colours_follow_the_numbers :
  (forall r r' : RiskInsight,
      unified_risk_index r <= unified_risk_index r' ->
      (alarm (uriColor (Some r)) <= alarm (uriColor (Some r')))%nat)
  /\ (forall v v' : RevenueInsight,
        sustainability_score v <= sustainability_score v' ->
        (alarm (growthColor (Some v')) <= alarm (growthColor (Some v)))%nat)
  /\ alarm (uriColor None) = 0%nat
  /\ alarm (growthColor None) = 2%nat.
Proof.
  repeat split.
  - intros r r' H. unfold uriColor. cbn [option_map nullish].
    destruct (Qle_bool 40 (unified_risk_index r)) eqn:A,
             (Qle_bool 70 (unified_risk_index r)) eqn:B,
             (Qle_bool 40 (unified_risk_index r')) eqn:A',
             (Qle_bool 70 (unified_risk_index r')) eqn:B';
      cbn [negb]; try (vm_compute; lia);
      exfalso;
      repeat match goal with
             | E : Qle_bool _ _ = true |- _ => apply Qle_bool_iff in E
             | E : Qle_bool ?a ?b = false |- _ =>
                 assert (b < a)
                   by (apply Qnot_le_lt; intros L; apply Qle_bool_iff in L;
                       congruence);
                 clear E
             end;
      unfold number in *; lra.
  - intros v v' H. unfold growthColor, sustainability.
    cbn [option_map nullish].
    destruct (Qle_bool 75 (sustainability_score v)) eqn:A,
             (Qle_bool 55 (sustainability_score v)) eqn:B,
             (Qle_bool 75 (sustainability_score v')) eqn:A',
             (Qle_bool 55 (sustainability_score v')) eqn:B';
      try (vm_compute; lia);
      exfalso;
      repeat match goal with
             | E : Qle_bool _ _ = true |- _ => apply Qle_bool_iff in E
             | E : Qle_bool ?a ?b = false |- _ =>
                 assert (b < a)
                   by (apply Qnot_le_lt; intros L; apply Qle_bool_iff in L;
                       congruence);
                 clear E
             end;
      unfold number in *; lra.
Qed.
End RevenueIntelligenceFacts.

(** * Rounding to binary64 *)

Module RoundingFacts.
Import Binary64.

(** ** Shifting a mantissa *)

Lemma iter_pos_iter {A : Type} (f : A -> A) (p : positive) (x : A) :
  iter_pos f p x = Pos.iter f x p.
Proof.
  revert x. induction p as [p IH | p IH |]; intros x; cbn [iter_pos Pos.iter].
  - rewrite !IH, !Pos.iter_swap. reflexivity.
  - rewrite !IH. reflexivity.
  - reflexivity.
Qed.

Lemma shr_1_m (mrs : shr_record) :
  (0 <= shr_m mrs)%Z -> shr_m (shr_1 mrs) = (shr_m mrs / 2)%Z.
Proof.
  destruct mrs as [m r s]. cbn [shr_m shr_1]. intros H.
  rewrite <- Z.div2_div.
  destruct m as [| [p | p |] | p]; try reflexivity. lia.
Qed.

Lemma shr_iter_m (p : positive) (mrs : shr_record) :
  (0 <= shr_m mrs)%Z ->
  shr_m (iter_pos shr_1 p mrs) = (shr_m mrs / 2 ^ Zpos p)%Z.
Proof.
  intros H. rewrite iter_pos_iter.
  induction p as [| p IH] using Pos.peano_ind.
  - cbn [Pos.iter]. rewrite shr_1_m by exact H. reflexivity.
  - rewrite Pos.iter_succ, shr_1_m.
    + rewrite IH, Pos2Z.inj_succ, Z.pow_succ_r by lia.
      rewrite Z.div_div by lia. f_equal. lia.
    + rewrite IH. apply Z.div_pos; lia.
Qed.

Lemma shr_spec (mrs : shr_record) (e n : Z) :
  (0 <= shr_m mrs)%Z ->
  (n <= 0 /\ shr mrs e n = (mrs, e))%Z
  \/ (0 < n)%Z
     /\ exists mrs', shr mrs e n = (mrs', (e + n)%Z)
          /\ shr_m mrs' = (shr_m mrs / 2 ^ n)%Z.
Proof.
  intros H. destruct n as [| p | p].
  - left. split; [lia | reflexivity].
  - right. split; [lia |]. eexists. split; [reflexivity |].
    apply shr_iter_m, H.
  - left. split; [lia | reflexivity].
Qed.

Lemma shr_record_of_loc_m (m : Z) (l : location) :
  shr_m (shr_record_of_loc m l) = m.
Proof. destruct l as [| []]; reflexivity. Qed.

Lemma loc_of_shr_record_of_loc (m : Z) (l : location) :
  loc_of_shr_record (shr_record_of_loc m l) = l.
Proof. destruct l as [| []]; reflexivity. Qed.

Lemma round_nearest_even_bounds (m : Z) (l : location) :
  (m <= round_nearest_even m l <= m + 1)%Z.
Proof.
  unfold round_nearest_even. destruct l as [| []]; try lia.
  destruct (Z.even m); lia.
Qed.

Lemma digits2_pos_le (m : positive) :
  (2 ^ (Zpos (digits2_pos m) - 1) <= Zpos m)%Z.
Proof.
  induction m as [m IH | m IH |]; cbn [digits2_pos].
  - rewrite Pos2Z.inj_succ.
    replace (Z.succ (Zpos (digits2_pos m)) - 1)%Z
      with (Z.succ (Zpos (digits2_pos m) - 1)) by lia.
    rewrite Z.pow_succ_r by lia. lia.
  - rewrite Pos2Z.inj_succ.
    replace (Z.succ (Zpos (digits2_pos m)) - 1)%Z
      with (Z.succ (Zpos (digits2_pos m) - 1)) by lia.
    rewrite Z.pow_succ_r by lia. lia.
  - reflexivity.
Qed.

Lemma iter_xO (m d : positive) :
  Zpos (Pos.iter xO m d) = (Zpos m * 2 ^ Zpos d)%Z
  /\ digits2_pos (Pos.iter xO m d) = (digits2_pos m + d)%positive.
Proof.
  induction d as [| d [IH1 IH2]] using Pos.peano_ind.
  - cbn [Pos.iter digits2_pos]. split; [lia | lia].
  - rewrite Pos.iter_succ. cbn [digits2_pos]. rewrite IH2. split; [| lia].
    rewrite Pos2Z.inj_xO, IH1, Pos2Z.inj_succ, Z.pow_succ_r by lia. lia.
Qed.

(** ** Values *)

Lemma pow2_pos (e : Z) : 0 < 2 ^ e.
Proof. apply Qpower_0_lt. reflexivity. Qed.

Lemma pow2_add (a b : Z) : 2 ^ (a + b) == 2 ^ a * 2 ^ b.
Proof. apply Qpower_plus. discriminate. Qed.

Lemma pow2_le (a b : Z) : (a <= b)%Z -> 2 ^ a <= 2 ^ b.
Proof. intros H. apply Qpower_le_compat_l; [exact H | discriminate]. Qed.

Lemma pow2_inject (n : Z) : (0 <= n)%Z -> inject_Z (2 ^ n) == 2 ^ n.
Proof. intros H. rewrite Zpower_Qpower by exact H. reflexivity. Qed.

Lemma scaled_le (m m' e : Z) : (m <= m')%Z -> scaled m e <= scaled m' e.
Proof.
  intros H. unfold scaled. apply Qmult_le_compat_r.
  - rewrite <- Zle_Qle. exact H.
  - apply Qlt_le_weak, pow2_pos.
Qed.

Lemma scaled_nonneg (m e : Z) : (0 <= m)%Z -> 0 <= scaled m e.
Proof.
  intros H. unfold scaled. apply Qmult_le_0_compat.
  - change 0 with (inject_Z 0). rewrite <- Zle_Qle. exact H.
  - apply Qlt_le_weak, pow2_pos.
Qed.

Lemma scaled_pow2 (m e n : Z) : (0 <= n)%Z -> scaled (m * 2 ^ n) e == scaled m (e + n).
Proof.
  intros H. unfold scaled. rewrite inject_Z_mult, pow2_inject, pow2_add by exact H.
  ring.
Qed.

Lemma scaled_shift (m e n : Z) :
  (0 <= m)%Z -> (0 <= n)%Z -> scaled (m / 2 ^ n) (e + n) <= scaled m e.
Proof.
  intros Hm Hn. rewrite <- scaled_pow2 by exact Hn. apply scaled_le.
  rewrite Z.mul_comm. apply Z.mul_div_le. apply Z.pow_pos_nonneg; lia.
Qed.

Lemma scaled_succ (m e : Z) : scaled (m + 1) e == scaled m e + 2 ^ e.
Proof. unfold scaled. rewrite inject_Z_plus. ring. Qed.


(** ** Rounding a mantissa *)

Lemma fexp_max (e : Z) : fexp prec emax e = Z.max (e - 53) (-1074).
Proof. reflexivity. Qed.

Lemma shr_fexp_spec (m e : Z) (l : location) :
  (0 <= m)%Z ->
  exists mrs' e',
    shr_fexp prec emax m e l = (mrs', e')
    /\ (0 <= shr_m mrs')%Z /\ (e <= e')%Z
    /\ scaled (shr_m mrs') e' <= scaled m e
    /\ (mrs' = shr_record_of_loc m l /\ e' = e
        \/ (e < e')%Z /\ e' = fexp prec emax (Zdigits2 m + e)).
Proof.
  intros Hm. unfold shr_fexp.
  set (n := (fexp prec emax (Zdigits2 m + e) - e)%Z).
  assert (H0 : (0 <= shr_m (shr_record_of_loc m l))%Z)
    by (rewrite shr_record_of_loc_m; exact Hm).
  destruct (shr_spec (shr_record_of_loc m l) e n H0)
    as [[Hn E] | [Hn (mrs' & E & M)]].
  - exists (shr_record_of_loc m l), e. rewrite shr_record_of_loc_m.
    repeat split; [exact E | exact Hm | lia | apply Qle_refl |].
    left. split; reflexivity.
  - exists mrs', (e + n)%Z. rewrite shr_record_of_loc_m in M.
    split; [exact E |]. rewrite M.
    split; [apply Z.div_pos; [exact Hm | apply Z.pow_pos_nonneg; lia] |].
    split; [lia |].
    split; [apply scaled_shift; lia |].
    right. split; [lia | unfold n; lia].
Qed.

Lemma binary_round_aux_spec (s : bool) (m e : Z) (l : location) :
  (0 <= m)%Z ->
  exists m3 e3,
    binary_round_aux prec emax s m e l = packed s m3 e3
    /\ (0 <= m3)%Z /\ (e <= e3)%Z
    /\ (scaled m3 e3 <= scaled (round_nearest_even m l) e
        \/ scaled m3 e3 <= scaled m e + 2 ^ fexp prec emax (Zdigits2 m + e)).
Proof.
  intros Hm. unfold binary_round_aux.
  destruct (shr_fexp_spec m e l Hm) as (mrs1 & e1 & E1 & P1 & L1 & V1 & C1).
  rewrite E1.
  set (m2 := round_nearest_even (shr_m mrs1) (loc_of_shr_record mrs1)).
  assert (B2 : (shr_m mrs1 <= m2 <= shr_m mrs1 + 1)%Z)
    by apply round_nearest_even_bounds.
  assert (Hm2 : (0 <= m2)%Z) by lia.
  destruct (shr_fexp_spec m2 e1 loc_Exact Hm2)
    as (mrs3 & e3 & E3 & P3 & L3 & V3 & _).
  rewrite E3. exists (shr_m mrs3), e3.
  split; [reflexivity |]. split; [exact P3 |]. split; [lia |].
  destruct C1 as [[-> ->] | [_ ->]].
  - left. unfold m2 in V3.
    rewrite shr_record_of_loc_m, loc_of_shr_record_of_loc in V3. exact V3.
  - right. apply (Qle_trans _ _ _ V3).
    apply (Qle_trans _ (scaled (shr_m mrs1 + 1) (fexp prec emax (Zdigits2 m + e)))).
    + apply scaled_le. lia.
    + rewrite scaled_succ. apply Qplus_le_l. exact V1.
Qed.

Lemma ulp_bound (m : positive) (e : Z) :
  2 ^ fexp prec emax (Zpos (digits2_pos m) + e)
  <= scaled (Zpos m) e * 2 ^ (-52) + 2 ^ (-1074).
Proof.
  rewrite fexp_max.
  pose proof (pow2_pos (-1074)) as T.
  pose proof (pow2_pos (-52)) as U.
  pose proof (scaled_nonneg (Zpos m) e (Pos2Z.is_nonneg m)) as N.
  destruct (Z.max_spec (Zpos (digits2_pos m) + e - 53) (-1074))
    as [[_ ->] | [_ ->]].
  - apply (Qle_trans _ (0 + 2 ^ (-1074))).
    + rewrite Qplus_0_l. apply Qle_refl.
    + apply Qplus_le_l. apply Qmult_le_0_compat; [exact N |].
      apply Qlt_le_weak, U.
  - apply (Qle_trans _ (scaled (Zpos m) e * 2 ^ (-52) + 0)).
    + rewrite Qplus_0_r.
      replace (Zpos (digits2_pos m) + e - 53)%Z
        with ((Zpos (digits2_pos m) - 1) + (e + -52))%Z by lia.
      rewrite !pow2_add, Qmult_assoc.
      apply Qmult_le_compat_r; [| apply Qlt_le_weak, U].
      unfold scaled. apply Qmult_le_compat_r; [| apply Qlt_le_weak, pow2_pos].
      rewrite <- pow2_inject by lia. rewrite <- Zle_Qle.
      apply digits2_pos_le.
    + apply Qplus_le_r. apply Qlt_le_weak, T.
Qed.

Lemma binary_round_aux_canonical (s : bool) (m : positive) (e : Z) :
  fexp prec emax (Zpos (digits2_pos m) + e) = e ->
  binary_round_aux prec emax s (Zpos m) e loc_Exact = packed s (Zpos m) e.
Proof.
  intros H. unfold binary_round_aux, shr_fexp. cbn [Zdigits2].
  rewrite H, Z.sub_diag.
  cbn [shr shr_record_of_loc shr_m loc_of_shr_record round_nearest_even
       Zdigits2].
  rewrite H, Z.sub_diag. reflexivity.
Qed.

(** [binary_round] returns the given number when its mantissa has room,
    and a number of no smaller exponent otherwise; it adds at most one
    unit in the last place. *)
Lemma binary_round_spec (s : bool) (m : positive) (e : Z) :
  exists m3 e3,
    binary_round prec emax s m e = packed s m3 e3
    /\ (0 <= m3)%Z
    /\ ((e <= e3)%Z \/ scaled m3 e3 == scaled (Zpos m) e)
    /\ scaled m3 e3 <= scaled (Zpos m) e * (1 + 2 ^ (-52)) + 2 ^ (-1074).
Proof.
  pose proof (pow2_pos (-1074)) as T.
  pose proof (pow2_pos (-52)) as U.
  pose proof (scaled_nonneg (Zpos m) e (Pos2Z.is_nonneg m)) as N.
  pose proof (ulp_bound m e) as UB.
  assert (W : forall x,
             x <= scaled (Zpos m) e
             \/ x <= scaled (Zpos m) e
                     + 2 ^ fexp prec emax (Zpos (digits2_pos m) + e) ->
             x <= scaled (Zpos m) e * (1 + 2 ^ (-52)) + 2 ^ (-1074)).
  { set (u := 2 ^ (-52)) in *. set (t := 2 ^ (-1074)) in *.
    set (v := scaled (Zpos m) e) in *.
    set (w := 2 ^ fexp prec emax (Zpos (digits2_pos m) + e)) in *.
    assert (0 <= v * u) by (apply Qmult_le_0_compat; lra).
    intros x [X | X]; lra. }
  assert (A : forall f,
             (e <= f)%Z ->
             exists m3 e3,
               binary_round_aux prec emax s (Zpos m) e loc_Exact
               = packed s m3 e3
               /\ (0 <= m3)%Z
               /\ ((e <= e3)%Z \/ scaled m3 e3 == scaled (Zpos m) e)
               /\ scaled m3 e3 <= scaled (Zpos m) e * (1 + 2 ^ (-52)) + 2 ^ (-1074)).
  { intros f _.
    destruct (binary_round_aux_spec s (Zpos m) e loc_Exact
                (Pos2Z.is_nonneg m)) as (m3 & e3 & E & P & L & B).
    exists m3, e3. split; [exact E |]. split; [exact P |].
    split; [left; exact L |]. apply W. exact B. }
  unfold binary_round, shl_align.
  set (f := fexp prec emax (Zpos (digits2_pos m) + e)) in *.
  destruct (f - e)%Z as [| d | d] eqn:D.
  - apply (A f). lia.
  - apply (A f). lia.
  - destruct (iter_xO m d) as [I1 I2].
    exists (Zpos (Pos.iter xO m d)), f.
    assert (V : scaled (Zpos (Pos.iter xO m d)) f == scaled (Zpos m) e).
    { rewrite I1, scaled_pow2 by lia. replace (f + Zpos d)%Z with e by lia.
      reflexivity. }
    split.
    + apply binary_round_aux_canonical. rewrite I2, Pos2Z.inj_add.
      replace (Zpos (digits2_pos m) + Zpos d + f)%Z
        with (Zpos (digits2_pos m) + e)%Z by lia.
      reflexivity.
    + split; [lia |]. split; [right; exact V |].
      rewrite V. apply W. left. apply Qle_refl.
Qed.

(** The value of what is packed. *)
Lemma packed_cases (s : bool) (m e : Z) :
  (0 <= m)%Z ->
  packed s m e = S754_zero s
  \/ (exists p, m = Zpos p /\ (972 <= e)%Z /\ packed s m e = S754_infinity s)
  \/ (exists p, m = Zpos p /\ (e <= 971)%Z
                /\ packed s m e = S754_finite s p e).
Proof.
  intros H. destruct m as [| p | p]; [left; reflexivity | | lia].
  right. unfold packed. change (emax - prec)%Z with 971%Z.
  destruct (Z.leb_spec e 971).
  - right. exists p. repeat split. exact H0.
  - left. exists p. repeat split. lia.
Qed.

Lemma value_finite (s : bool) (m : positive) (e : Z) :
  value (S754_finite s m e) == (if s then - scaled (Zpos m) e else scaled (Zpos m) e).
Proof.
  cbn [value]. unfold scaled. destruct s; cbn [cond_Zopp].
  - rewrite inject_Z_opp. ring.
  - reflexivity.
Qed.

Lemma scaled_large (p : positive) (e : Z) : (972 <= e)%Z -> 128 < scaled (Zpos p) e.
Proof.
  intros H. unfold scaled.
  apply (Qlt_le_trans _ (1 * 2 ^ 8)); [reflexivity |].
  apply Qmult_le_compat_nonneg.
  - split; [discriminate |]. change 1 with (inject_Z 1).
    rewrite <- Zle_Qle. lia.
  - split; [apply Qlt_le_weak, pow2_pos | apply pow2_le; lia].
Qed.

(** A rounded number within 100 of zero is finite, and rounding has moved
    it by less than one. *)
Lemma packed_small (s : bool) (m3 e3 : Z) (v : Q) :
  (0 <= m3)%Z -> 0 <= v -> v <= 100 ->
  scaled m3 e3 <= v * (1 + 2 ^ (-52)) + 2 ^ (-1074) ->
  is_finite (packed s m3 e3) = true
  /\ - (v + 1) <= value (packed s m3 e3) <= v + 1.
Proof.
  intros P V0 V100 B.
  assert (U : 2 ^ (-52) <= 1 # 1000)
    by (apply (Qle_trans _ (2 ^ (-10))); [apply pow2_le; lia | discriminate]).
  assert (T : 2 ^ (-1074) <= 1 # 2)
    by (apply (Qle_trans _ (2 ^ (-1))); [apply pow2_le; lia | discriminate]).
  pose proof (pow2_pos (-52)) as U0.
  set (u := 2 ^ (-52)) in *. set (t := 2 ^ (-1074)) in *.
  assert (B' : scaled m3 e3 <= v + 1).
  { assert (v * u <= 100 * (1 # 1000)).
    { apply Qmult_le_compat_nonneg; split; lra. }
    lra. }
  destruct (packed_cases s m3 e3 P) as [-> | [(p & -> & L & E) | (p & -> & L & ->)]].
  - split; [reflexivity |]. cbn [value]. lra.
  - exfalso. pose proof (scaled_large p e3 L). lra.
  - split; [reflexivity |]. rewrite value_finite.
    pose proof (scaled_nonneg (Zpos p) e3 (Pos2Z.is_nonneg p)).
    destruct s; lra.
Qed.


(** ** The operations *)

Lemma scaled_whole (m : Z) : scaled m 0 == inject_Z m.
Proof. unfold scaled. change (2 ^ 0) with 1. ring. Qed.

Lemma scaled_opp (m e : Z) : scaled (- m) e == - scaled m e.
Proof. unfold scaled. rewrite inject_Z_opp. ring. Qed.

Lemma scaled_sub (m n e : Z) : scaled (m - n) e == scaled m e - scaled n e.
Proof. unfold scaled, Z.sub. rewrite inject_Z_plus, inject_Z_opp. ring. Qed.

Lemma scaled_add (m n e : Z) : scaled (m + n) e == scaled m e + scaled n e.
Proof. unfold scaled. rewrite inject_Z_plus. ring. Qed.

Lemma shl_align_value (s : bool) (m : positive) (e e' : Z) :
  (e' <= e)%Z ->
  scaled (cond_Zopp s (Zpos (fst (shl_align m e e')))) e'
  == value (S754_finite s m e).
Proof.
  intros H.
  assert (V : scaled (Zpos (fst (shl_align m e e'))) e' == scaled (Zpos m) e).
  { unfold shl_align. destruct (e' - e)%Z as [| d | d] eqn:D; cbn [fst].
    - replace e' with e by lia. reflexivity.
    - lia.
    - rewrite (proj1 (iter_xO m d)), scaled_pow2 by lia.
      replace (e' + Zpos d)%Z with e by lia. reflexivity. }
  rewrite value_finite. destruct s; cbn [cond_Zopp].
  - rewrite scaled_opp, V. reflexivity.
  - exact V.
Qed.

Lemma binary_normalize_spec (z e : Z) :
  exists s m3 e3,
    binary_normalize prec emax z e false = packed s m3 e3
    /\ (0 <= m3)%Z
    /\ ((e <= e3)%Z \/ scaled m3 e3 == scaled (Z.abs z) e)
    /\ scaled m3 e3 <= scaled (Z.abs z) e * (1 + 2 ^ (-52)) + 2 ^ (-1074).
Proof.
  destruct z as [| p | p]; cbn [binary_normalize Z.abs].
  - exists false, 0%Z, e. split; [reflexivity |]. split; [lia |].
    split; [left; lia |]. unfold scaled. rewrite !Qmult_0_l.
    rewrite Qplus_0_l. apply Qlt_le_weak, pow2_pos.
  - destruct (binary_round_spec false p e) as (m3 & e3 & H).
    exists false, m3, e3. exact H.
  - destruct (binary_round_spec true p e) as (m3 & e3 & H).
    exists true, m3, e3. exact H.
Qed.

Lemma scaled_abs_le (z e : Z) (b : Q) :
  - b <= scaled z e <= b -> 0 <= scaled (Z.abs z) e <= b.
Proof.
  intros [L U]. split; [apply scaled_nonneg, Z.abs_nonneg |].
  destruct (Z.abs_spec z) as [[_ ->] | [_ ->]]; [exact U |].
  rewrite scaled_opp. lra.
Qed.

(** A difference within 100 of zero is computed without overflow, and off
    by less than one. *)
Lemma sub_small (x y : double) (b : Q) :
  is_finite x = true -> is_finite y = true ->
  - b <= value x - value y <= b -> b <= 100 ->
  is_finite (sub x y) = true /\ - (b + 1) <= value (sub x y) <= b + 1.
Proof.
  intros Fx Fy B B100.
  destruct x as [sx | sx | | sx mx ex]; try discriminate Fx;
    destruct y as [sy | sy | | sy my ey]; try discriminate Fy.
  - split; [destruct sx, sy; reflexivity |].
    assert (E : value (sub (S754_zero sx) (S754_zero sy)) == 0)
      by (destruct sx, sy; reflexivity).
    rewrite E. cbn [value] in B. lra.
  - cbn [sub SFsub]. change (sub (S754_zero sx) (S754_finite sy my ey))
      with (S754_finite (negb sy) my ey).
    split; [reflexivity |].
    rewrite value_finite. rewrite value_finite in B.
    change (value (S754_zero sx)) with 0 in B.
    destruct sy; cbn [negb]; lra.
  - change (sub (S754_finite sx mx ex) (S754_zero sy))
      with (S754_finite sx mx ex).
    split; [reflexivity |]. change (value (S754_zero sy)) with 0 in B. lra.
  - unfold sub, SFsub.
    set (ez := Z.min ex ey).
    set (z := (cond_Zopp sx (Zpos (fst (shl_align mx ex ez)))
               - cond_Zopp sy (Zpos (fst (shl_align my ey ez))))%Z).
    assert (V : scaled z ez
                == value (S754_finite sx mx ex) - value (S754_finite sy my ey)).
    { unfold z. rewrite scaled_sub, !shl_align_value by (unfold ez; lia).
      reflexivity. }
    rewrite <- V in B. apply scaled_abs_le in B.
    destruct (binary_normalize_spec z ez) as (s & m3 & e3 & E & P & _ & L).
    rewrite E.
    destruct (packed_small s m3 e3 (scaled (Z.abs z) ez) P) as [Fin R];
      [lra | lra | exact L |].
    split; [exact Fin | lra].
Qed.

(** An integer literal denotes a whole number, when it does not
    overflow. *)
Lemma of_int_whole (z : Z) :
  is_finite (of_int z) = true -> exists k : Z, value (of_int z) == inject_Z k.
Proof.
  unfold of_int.
  destruct (binary_normalize_spec z 0) as (s & m3 & e3 & E & P & C & _).
  rewrite E.
  destruct (packed_cases s m3 e3 P)
    as [-> | [(p & -> & L & ->) | (p & -> & L & ->)]].
  - intros _. exists 0%Z. reflexivity.
  - discriminate.
  - intros _.
    assert (W : exists k : Z, scaled (Zpos p) e3 == inject_Z k).
    { destruct C as [C | C].
      - exists (Zpos p * 2 ^ e3)%Z. rewrite <- scaled_whole, scaled_pow2 by exact C.
        reflexivity.
      - exists (Z.abs z). rewrite C. apply scaled_whole. }
    destruct W as [k W]. destruct s.
    + exists (- k)%Z. rewrite value_finite, W, inject_Z_opp. reflexivity.
    + exists k. rewrite value_finite, W. reflexivity.
Qed.

(** [Math.round] leaves NaN and the infinities as they are, and what it
    returns is a whole number otherwise. *)
Lemma Math_round_whole (x : double) :
  (is_finite x = false -> Math_round x = x)
  /\ (is_finite (Math_round x) = true ->
      exists k : Z, value (Math_round x) == inject_Z k).
Proof.
  split; [destruct x; try discriminate; reflexivity |].
  destruct x as [s | s | | s m e]; try discriminate.
  - intros _. exists 0%Z. reflexivity.
  - unfold Math_round. destruct (Z.leb_spec 0 e) as [L | L].
    + intros _. exists (cond_Zopp s (Zpos m) * 2 ^ e)%Z.
      rewrite <- scaled_whole, scaled_pow2 by exact L. reflexivity.
    + cbv zeta. destruct (Qfloor (value (S754_finite s m e) + 0.5) =? 0)%Z.
      * intros _. exists 0%Z. reflexivity.
      * apply of_int_whole.
Qed.

End RoundingFacts.

(** * The simulation in binary64 *)

Module Binary64Facts.

(** [toFixed] on an exact value, under a name the binary64 one does not
    hide. *)
Local Abbreviation exact_toFixed := toFixed.

Import Binary64.

(** ** Clamping *)

Lemma of_int_0 : of_int 0 = S754_zero false.
Proof. reflexivity. Qed.

Lemma of_int_100 : of_int 100 = S754_finite false 7036874417766400 (-46).
Proof. vm_compute. reflexivity. Qed.

Lemma value_100 : value (S754_finite false 7036874417766400 (-46)) == 100.
Proof. vm_compute. reflexivity. Qed.

Lemma Qle_bool_false (a b : Q) : Qle_bool a b = false -> b < a.
Proof.
  intros H. apply Qnot_le_lt. intros L. apply Qle_bool_iff in L. congruence.
Qed.

(** [Math.max(0, Math.min(100, x))] is NaN for NaN and lies between 0 and
    100 for every other [x], the infinities included. *)
Lemma clamp_spec (x : double) :
  if is_nan x
  then Math_max (of_int 0) (Math_min (of_int 100) x) = S754_nan
  else within_0_100 (Math_max (of_int 0) (Math_min (of_int 100) x)).
Proof.
  rewrite of_int_0, of_int_100.
  assert (H100 : within_0_100 (S754_finite false 7036874417766400 (-46))).
  { split; [reflexivity | rewrite value_100; split; discriminate]. }
  assert (H0 : within_0_100 (S754_zero false)).
  { split; [reflexivity | cbn [value]; split; discriminate]. }
  destruct x as [s | s | | s m e]; cbn [is_nan].
  - destruct s; vm_compute; repeat split; discriminate.
  - destruct s; vm_compute; repeat split; discriminate.
  - reflexivity.
  - unfold Math_min. cbn [is_nan orb is_zero andb].
    unfold lt at 1.
    destruct (Qle_bool (value (S754_finite false 7036874417766400 (-46)))
                (value (S754_finite s m e))) eqn:E100; cbn [negb].
    + exact H100.
    + apply Qle_bool_false in E100. rewrite value_100 in E100.
      unfold Math_max. cbn [is_nan orb is_zero andb]. unfold lt.
      destruct (Qle_bool (value (S754_finite s m e)) (value (S754_zero false)))
        eqn:E0; cbn [negb].
      * exact H0.
      * apply Qle_bool_false in E0. cbn [value] in E0 |- *.
        split; [reflexivity |]. split; apply Qlt_le_weak; assumption.
Qed.

(** ** [toFixed] and [parseFloat] *)

Import Numeral NumeralFacts.

(** The digits of [n] with the point put in front of the last [f + 1]. *)
Lemma insert_point_parts (n : Z) (f : nat) :
  (0 <= n)%Z ->
  exists a b : string,
    insert_point (digits n) (S f) = (a ++ "." ++ b)%string
    /\ all_digits a = true /\ all_digits b = true
    /\ (0 < String.length a)%nat /\ String.length b = S f
    /\ (digits_value a 0 * 10 ^ Z.of_nat (S f) + digits_value b 0 = n)%Z.
Proof.
  intros Hn. destruct (digits_spec n Hn) as (Hall & Hval & Hlen).
  cbn [insert_point].
  set (m := if (String.length (digits n) <=? S f)%nat
            then (zeros (S f + 1 - String.length (digits n)) ++ digits n)%string
            else digits n).
  assert (Hm : all_digits m = true /\ digits_value m 0 = n
               /\ (S f < String.length m)%nat).
  { unfold m. destruct (Nat.leb_spec (String.length (digits n)) (S f)).
    - destruct (zeros_spec (S f + 1 - String.length (digits n)))
        as (Za & Zv & Zl).
      rewrite all_digits_app, Za, Hall, digits_value_app, Zv, Hval by exact Za.
      rewrite length_append, Zl. repeat split. lia.
    - repeat split; assumption. }
  destruct Hm as (Ma & Mv & Ml).
  set (k := (String.length m - S f)%nat).
  pose proof (take_drop k m) as Hsplit.
  assert (Hb : String.length (drop k m) = S f)
    by (rewrite length_drop; unfold k; lia).
  assert (Hk : (0 < String.length (take k m))%nat).
  { assert (E : String.length m
                = (String.length (take k m) + String.length (drop k m))%nat)
      by (rewrite <- length_append, Hsplit; reflexivity).
    lia. }
  assert (Hab : all_digits (take k m) = true /\ all_digits (drop k m) = true).
  { apply andb_prop. rewrite <- all_digits_app, Hsplit. exact Ma. }
  destruct Hab as (Haa & Hbb).
  exists (take k m), (drop k m). repeat split; try assumption.
  assert (E : digits_value (take k m ++ drop k m) 0 = n)
    by (rewrite Hsplit; exact Mv).
  rewrite digits_value_app in E by exact Haa.
  rewrite (digits_value_shift (drop k m) _ Hbb), Hb in E. exact E.
Qed.

Lemma digit_not_I (c : ascii) (d : Z) :
  digit_value c = Some d -> String.prefix "Infinity" (String c "") = false
  /\ forall rest, String.prefix "Infinity" (String c rest) = false.
Proof.
  intros H.
  assert (N : "I"%char <> c).
  { intros <-. vm_compute in H. discriminate H. }
  assert (P : forall rest, String.prefix "Infinity" (String c rest) = false).
  { intros rest. cbn [String.prefix].
    destruct (ascii_dec "I" c) as [E | _]; [contradiction | reflexivity]. }
  split; [apply P | exact P].
Qed.

(** Reading an unsigned numeral [a.b], and one with a minus sign. *)
Lemma parseFloat64_point (negative : bool) (a b : string) :
  all_digits a = true -> all_digits b = true ->
  (0 < String.length a)%nat ->
  parseFloat ((if negative then "-" else "") ++ a ++ "." ++ b)
  = nearest negative
      (digits_value a 0 * 10 ^ Z.of_nat (String.length b) + digits_value b 0)
      (Z.to_pos (10 ^ Z.of_nat (String.length b))).
Proof.
  intros Ha Hb Hlen.
  destruct a as [| c a]; [simpl in Hlen; lia |].
  pose proof Ha as Ha'. cbn [all_digits] in Ha'.
  destruct (digit_value c) as [d |] eqn:Hc; [| discriminate].
  destruct (digit_not_mark _ _ Hc) as (Hminus & Hplus & _).
  destruct (digit_not_I _ _ Hc) as [_ HI].
  assert (body :
    forall neg,
      (if String.prefix "Infinity" (String c a ++ "." ++ b)
       then S754_infinity neg
       else
         let '(int_part, int_count, s2) :=
           parse_digits (String c a ++ "." ++ b) 0 0 in
         let '(frac_part, frac_count, _) :=
           match s2 with
           | String c0 rest =>
               if (c0 =? ".")%char then parse_digits rest 0 0
               else (0%Z, O, s2)
           | EmptyString => (0%Z, O, s2)
           end in
         match int_count, frac_count with
         | O, O => S754_nan
         | _, _ =>
             nearest neg (int_part * 10 ^ Z.of_nat frac_count + frac_part)
               (Z.to_pos (10 ^ Z.of_nat frac_count))
         end)
      = nearest neg
          (digits_value (String c a) 0 * 10 ^ Z.of_nat (String.length b)
           + digits_value b 0)
          (Z.to_pos (10 ^ Z.of_nat (String.length b)))).
  { intros neg. cbn [append]. rewrite HI.
    change (String c (a ++ String "." b)) with (String c a ++ String "." b)%string.
    rewrite parse_digits_run; [| exact Ha | reflexivity].
    cbn [Ascii.eqb Bool.eqb].
    rewrite <- (append_nil_r b) at 1.
    rewrite parse_digits_run; [| exact Hb | exact I].
    cbn [Nat.add String.length]. reflexivity. }
  unfold parseFloat. destruct negative.
  - cbn [append]. cbn [Ascii.eqb Bool.eqb]. apply (body true).
  - cbn [append]. rewrite Hminus, Hplus. apply (body false).
Qed.

(** What is read back from [toFixed(1)]: the number nearest to the tenths
    the exact value rounds to, a tie going away from zero. *)
Lemma parseFloat64_toFixed_1 (x : double) :
  is_finite x = true ->
  parseFloat (toFixed x 1)
  = if Qlt_le_dec (value x) 0
    then nearest true (Qfloor (- value x * 10 + 0.5)) 10
    else nearest false (Qfloor (value x * 10 + 0.5)) 10.
Proof.
  intros Hf.
  assert (E : toFixed x 1 = exact_toFixed (value x) 1).
  { destruct x; try discriminate Hf; reflexivity. }
  rewrite E. unfold exact_toFixed.
  change (inject_Z (10 ^ Z.of_nat 1)) with 10.
  destruct (Qlt_le_dec (value x) 0) as [Hneg | Hpos].
  - assert (Hn : (0 <= Qfloor (- value x * 10 + 0.5))%Z)
      by (apply round_half_away_nonneg; lra).
    destruct (insert_point_parts _ 0 Hn) as (a & b & -> & Ha & Hb & La & Lb & V).
    rewrite (parseFloat64_point true a b Ha Hb La), Lb, V. reflexivity.
  - assert (Hn : (0 <= Qfloor (value x * 10 + 0.5))%Z)
      by (apply round_half_away_nonneg; lra).
    destruct (insert_point_parts _ 0 Hn) as (a & b & -> & Ha & Hb & La & Lb & V).
    rewrite (parseFloat64_point false a b Ha Hb La), Lb, V. reflexivity.
Qed.

(** Every whole number of tenths from 0.0 to 100.0 is read as a number
    between 0 and 100: checked on all 1001 of them. *)
Lemma tenths_within (n : Z) :
  (0 <= n <= 1000)%Z -> within_0_100 (nearest false n 10).
Proof.
  intros Hn.
  assert (T : forallb (fun k => within_0_100_b (nearest false (Z.of_nat k) 10))
                (seq 0 1001) = true)
    by (vm_compute; reflexivity).
  rewrite forallb_forall in T.
  specialize (T (Z.to_nat n)). rewrite Z2Nat.id in T by lia.
  assert (I : In (Z.to_nat n) (seq 0 1001)) by (apply in_seq; lia).
  specialize (T I). unfold within_0_100_b in T.
  apply andb_prop in T. destruct T as [T U]. apply andb_prop in T.
  destruct T as [F L]. apply Qle_bool_iff in L, U.
  split; [exact F | split; assumption].
Qed.

Lemma fixed_within (c : double) :
  within_0_100 c -> within_0_100 (parseFloat (toFixed c 1)).
Proof.
  intros (F & L & U). rewrite (parseFloat64_toFixed_1 c F).
  destruct (Qlt_le_dec (value c) 0) as [N | _]; [lra |].
  apply tenths_within. split.
  - apply round_half_away_nonneg. lra.
  - apply (Qfloor_resp_le _ 1000.5). lra.
Qed.

Lemma fixed_nan : parseFloat (toFixed S754_nan 1) = S754_nan.
Proof. reflexivity. Qed.

(** ** Risk and health *)

Lemma nan_propagates :
  (forall x, add S754_nan x = S754_nan) /\ (forall x, sub S754_nan x = S754_nan)
  /\ (forall x, div S754_nan x = S754_nan) /\ (forall x, add x S754_nan = S754_nan).
Proof. repeat split; intros []; reflexivity. Qed.

(** C2, as the code has it.  The risk index is NaN when the raw risk is
    NaN, which overflow of the components to infinities of opposite sign
    brings about, and lies between 0 and 100 otherwise; the health score
    likewise, with the sum of base health and health delta in the place of
    the raw risk. *)
Theorem clamped_outputs_within_0_100_or_nan (p : SimulationParams) :
  (if is_nan (rawRisk p)
   then risk_index (runLocalSimulation p) = S754_nan
   else within_0_100 (risk_index (runLocalSimulation p)))
  /\ (if is_nan (rawHealth p)
      then new_health_score (runLocalSimulation p) = S754_nan
      else within_0_100 (new_health_score (runLocalSimulation p))).
Proof.
  cbn [risk_index new_health_score runLocalSimulation].
  unfold riskIndex, newHealth. split.
  - pose proof (clamp_spec (rawRisk p)) as C.
    destruct (is_nan (rawRisk p)); [rewrite C; reflexivity |].
    apply fixed_within, C.
  - pose proof (clamp_spec (rawHealth p)) as C.
    destruct (is_nan (rawHealth p)); [rewrite C; reflexivity |].
    apply fixed_within, C.
Qed.

(** C2 as stated fails: the five multipliers 1, -1e308, 1e308, 1, 1 are
    finite numbers, and neither the risk index nor the health score that
    the simulation returns for them lies between 0 and 100: the fraud
    component overflows to plus infinity and the expense component to
    minus infinity, their sum is NaN, and so are both results. *)
Lemma overflow_leaves_0_100 :
  let p := {| sales_growth_multiplier := of_int 1;
              expense_growth_multiplier := opp (of_int (10 ^ 308));
              fraud_sensitivity := of_int (10 ^ 308);
              supplier_delay_factor := of_int 1;
              reorder_threshold_multiplier := of_int 1 |} in
  (is_finite (sales_growth_multiplier p)
   && is_finite (expense_growth_multiplier p)
   && is_finite (fraud_sensitivity p)
   && is_finite (supplier_delay_factor p)
   && is_finite (reorder_threshold_multiplier p) = true)
  /\ fraudComponent p = S754_infinity false
  /\ expenseComponent p = S754_infinity true
  /\ rawRisk p = S754_nan
  /\ risk_index (runLocalSimulation p) = S754_nan
  /\ new_health_score (runLocalSimulation p) = S754_nan
  /\ ~ within_0_100 (risk_index (runLocalSimulation p))
  /\ ~ within_0_100 (new_health_score (runLocalSimulation p)).
Proof.
  intros p.
  assert (R : risk_index (runLocalSimulation p) = S754_nan)
    by (vm_compute; reflexivity).
  assert (H : new_health_score (runLocalSimulation p) = S754_nan)
    by (vm_compute; reflexivity).
  split; [vm_compute; reflexivity |].
  split; [vm_compute; reflexivity |].
  split; [vm_compute; reflexivity |].
  split; [vm_compute; reflexivity |].
  rewrite R, H.
  repeat split; intros [Fin _]; discriminate Fin.
Qed.

(** ** One decimal digit and whole numbers *)

Lemma tenths_finite (negative : bool) (n : Z) :
  (0 <= n <= 1000)%Z -> is_finite (nearest negative n 10) = true.
Proof.
  intros Hn. destruct negative; [| apply tenths_within, Hn].
  assert (T : forallb (fun k => is_finite (nearest true (Z.of_nat k) 10))
                (seq 0 1001) = true)
    by (vm_compute; reflexivity).
  rewrite forallb_forall in T.
  specialize (T (Z.to_nat n)). rewrite Z2Nat.id in T by lia.
  apply T. apply in_seq. lia.
Qed.

Lemma fixed_one_decimal (x : double) :
  is_finite x = true -> - (100) <= value x <= 100 ->
  one_decimal (parseFloat (toFixed x 1)).
Proof.
  intros Fx [L U]. rewrite (parseFloat64_toFixed_1 x Fx).
  destruct (Qlt_le_dec (value x) 0) as [N | N].
  - assert (B : (0 <= Qfloor (- value x * 10 + 0.5) <= 1000)%Z).
    { split; [apply round_half_away_nonneg; lra |].
      apply (Qfloor_resp_le _ 1000.5). lra. }
    split; [apply tenths_finite, B |]. eexists _, _. reflexivity.
  - assert (B : (0 <= Qfloor (value x * 10 + 0.5) <= 1000)%Z).
    { split; [apply round_half_away_nonneg; lra |].
      apply (Qfloor_resp_le _ 1000.5). lra. }
    split; [apply tenths_finite, B |]. eexists _, _. reflexivity.
Qed.

Lemma baseHealth_75 : is_finite baseHealth = true /\ value baseHealth == 75.
Proof. split; vm_compute; reflexivity. Qed.

(** The clamped health score and the delta computed from it: NaN
    together, or a score between 0 and 100 and a delta within 76 of
    zero. *)
Lemma delta_cases (p : SimulationParams) :
  (if is_nan (rawHealth p)
   then newHealth p = S754_nan /\ deltaFromBase p = S754_nan
   else within_0_100 (newHealth p)
        /\ is_finite (deltaFromBase p) = true
        /\ - (76) <= value (deltaFromBase p) <= 76).
Proof.
  pose proof (clamp_spec (rawHealth p)) as C. fold (newHealth p) in C.
  unfold deltaFromBase.
  destruct (is_nan (rawHealth p)).
  - rewrite C. split; reflexivity.
  - split; [exact C |]. destruct C as (Fh & L & U).
    destruct baseHealth_75 as [Fb Vb].
    destruct (RoundingFacts.sub_small (newHealth p) baseHealth 75 Fh Fb)
      as [Fd R]; [rewrite Vb; lra | lra |].
    split; [exact Fd | lra].
Qed.

(** [toFixed] is called on NaN and on numbers within 100 of zero only. *)
Lemma fixed_arguments_small (p : SimulationParams) :
  prints_digits (newHealth p) /\ prints_digits (deltaFromBase p)
  /\ prints_digits (riskIndex p).
Proof.
  pose proof (delta_cases p) as D.
  pose proof (clamp_spec (rawRisk p)) as R. fold (riskIndex p) in R.
  unfold prints_digits.
  split; [| split].
  - destruct (is_nan (rawHealth p)); [left; apply D |].
    destruct D as ((Fh & L & U) & _). right. split; [exact Fh | lra].
  - destruct (is_nan (rawHealth p)); [left; apply D |].
    destruct D as (_ & Fd & L & U). right. split; [exact Fd | lra].
  - destruct (is_nan (rawRisk p)); [left; exact R |].
    destruct R as (Fr & L & U). right. split; [exact Fr | lra].
Qed.

Lemma Math_round_rounded (x : double) : rounded_from x (Math_round x).
Proof.
  destruct (RoundingFacts.Math_round_whole x) as [N W].
  split; [exact N |]. intros Fy. split; [exact Fy | exact (W Fy)].
Qed.

Lemma map_Math_round_rounded (xs : list double) :
  Forall2 rounded_from xs (map Math_round xs).
Proof.
  induction xs as [| x xs IH]; cbn [map]; constructor;
    [apply Math_round_rounded | exact IH].
Qed.

(** C8, as the code has it.  The health score, its delta from the base and
    the risk index are NaN when the value that is clamped is NaN (the delta
    with the health score), and are otherwise numbers with one decimal
    digit: the binary64 numbers nearest to a whole number of tenths.  The
    projected cash and every value of the revenue forecast are whole
    numbers whenever they are finite; an unrounded value that is NaN or an
    infinity is returned as it is. *)
Theorem outputs_one_decimal_or_not_finite (p : SimulationParams) :
  (if is_nan (rawHealth p)
   then new_health_score (runLocalSimulation p) = S754_nan
        /\ delta_from_base (runLocalSimulation p) = S754_nan
   else one_decimal (new_health_score (runLocalSimulation p))
        /\ one_decimal (delta_from_base (runLocalSimulation p)))
  /\ (if is_nan (rawRisk p)
      then risk_index (runLocalSimulation p) = S754_nan
      else one_decimal (risk_index (runLocalSimulation p)))
  /\ rounded_from (projectedCash p) (projected_cash (runLocalSimulation p))
  /\ Forall2 rounded_from (revenueSeries p)
       (revenue_forecast (runLocalSimulation p)).
Proof.
  cbn [new_health_score delta_from_base risk_index projected_cash
       revenue_forecast runLocalSimulation].
  split; [| split; [| split]].
  - pose proof (delta_cases p) as D.
    destruct (is_nan (rawHealth p)).
    + destruct D as [-> ->]. split; reflexivity.
    + destruct D as ((Fh & L & U) & Fd & Ld & Ud).
      split; apply fixed_one_decimal; try assumption; lra.
  - pose proof (clamp_spec (rawRisk p)) as R. fold (riskIndex p) in R.
    destruct (is_nan (rawRisk p)); [rewrite R; reflexivity |].
    destruct R as (Fr & L & U). apply fixed_one_decimal; [exact Fr | lra].
  - apply Math_round_rounded.
  - apply map_Math_round_rounded.
Qed.

(** C8 as stated fails for the multipliers 1, -1e308, 1e308, 1, 1: the
    health score, its delta and the risk index are NaN, which carries no
    decimal digit, and the projected cash is infinite, which is no
    integer. *)
Lemma overflow_leaves_no_digit :
  let p := {| sales_growth_multiplier := of_int 1;
              expense_growth_multiplier := opp (of_int (10 ^ 308));
              fraud_sensitivity := of_int (10 ^ 308);
              supplier_delay_factor := of_int 1;
              reorder_threshold_multiplier := of_int 1 |} in
  (is_finite (sales_growth_multiplier p)
   && is_finite (expense_growth_multiplier p)
   && is_finite (fraud_sensitivity p)
   && is_finite (supplier_delay_factor p)
   && is_finite (reorder_threshold_multiplier p) = true)
  /\ new_health_score (runLocalSimulation p) = S754_nan
  /\ delta_from_base (runLocalSimulation p) = S754_nan
  /\ risk_index (runLocalSimulation p) = S754_nan
  /\ projected_cash (runLocalSimulation p) = S754_infinity false
  /\ ~ one_decimal (new_health_score (runLocalSimulation p))
  /\ ~ one_decimal (delta_from_base (runLocalSimulation p))
  /\ ~ one_decimal (risk_index (runLocalSimulation p))
  /\ ~ is_integer (projected_cash (runLocalSimulation p)).
Proof.
  intros p.
  assert (H : new_health_score (runLocalSimulation p) = S754_nan)
    by (vm_compute; reflexivity).
  assert (D : delta_from_base (runLocalSimulation p) = S754_nan)
    by (vm_compute; reflexivity).
  assert (R : risk_index (runLocalSimulation p) = S754_nan)
    by (vm_compute; reflexivity).
  assert (C : projected_cash (runLocalSimulation p) = S754_infinity false)
    by (vm_compute; reflexivity).
  split; [vm_compute; reflexivity |].
  rewrite H, D, R, C.
  repeat split; try (intros [Fin _]; discriminate Fin).
Qed.

(** The forecast overflows as well: with the sales multiplier 1e305 (the
    others 1) every forecast value and the projected cash are infinite. *)
Lemma large_sales_forecast_is_infinite :
  let p := {| sales_growth_multiplier := of_int (10 ^ 305);
              expense_growth_multiplier := of_int 1;
              fraud_sensitivity := of_int 1;
              supplier_delay_factor := of_int 1;
              reorder_threshold_multiplier := of_int 1 |} in
  is_finite (sales_growth_multiplier p) = true
  /\ revenue_forecast (runLocalSimulation p)
     = [S754_infinity false; S754_infinity false; S754_infinity false;
        S754_infinity false]
  /\ projected_cash (runLocalSimulation p) = S754_infinity false.
Proof. intros p. repeat split; vm_compute; reflexivity. Qed.

(** With all multipliers 1 the binary64 run gives the numbers of the exact
    one: health 82.6, delta 7.6, cash 192600, risk 6 and the forecast
    70000, 72100, 74200, 76300. *)
Lemma neutral_run_in_binary64 :
  let p := {| sales_growth_multiplier := of_int 1;
              expense_growth_multiplier := of_int 1;
              fraud_sensitivity := of_int 1;
              supplier_delay_factor := of_int 1;
              reorder_threshold_multiplier := of_int 1 |} in
  runLocalSimulation p
  = {| new_health_score := nearest false 826 10;
       delta_from_base := nearest false 76 10;
       projected_cash := of_int 192600;
       risk_index := of_int 6;
       revenue_forecast :=
         [of_int 70000; of_int 72100; of_int 74200; of_int 76300] |}.
Proof. vm_compute. reflexivity. Qed.

End Binary64Facts.

(** * The vendor rating in binary64 *)

Module VendorsPage64Facts.
Import Binary64 VendorsPage64.

(** X25. In binary64 the order of the rows can change a rating: the sum of
    the quantities is rounded after every addition.  The quantities 99.6,
    0.7 and 199.7 add up to 300 in this order, an average of 100 and a
    rating of 72; in the order 99.6, 199.7, 0.7 they add up to
    299.99999999999994, an average below 100 and a rating of 82. *)
Theorem row_order_can_change_a_rating :
  let q := fun tenths => Some (nearest false tenths 10) in
  Permutation [q 996%Z; q 7%Z; q 1997%Z] [q 996%Z; q 1997%Z; q 7%Z]
  /\ avgQuantity [q 996%Z; q 7%Z; q 1997%Z] = of_int 100
  /\ rating [q 996%Z; q 7%Z; q 1997%Z] = of_int 72
  /\ lt (avgQuantity [q 996%Z; q 1997%Z; q 7%Z]) (of_int 100) = true
  /\ rating [q 996%Z; q 1997%Z; q 7%Z] = of_int 82.
Proof.
  intros q. split; [apply perm_skip, perm_swap |].
  repeat split; vm_compute; reflexivity.
Qed.

End VendorsPage64Facts.
